(** * pdftext: the page-extraction pipeline and the dictionary assembler

    A shallow embedding of [pdftext/extraction.py].  Python integers are
    [Z], Python lists are Rocq lists, dictionaries are [gmap string _]
    living in an object store, exceptions are the [Err] side of [res], and
    the calls into the collaborating modules (pdfium, [get_pdfium_chars],
    [inference], [merge_text], ...) are fields of the class
    [Collaborators]. *)

From stdpp Require Import gmap strings list fin_maps.
From Stdlib Require Import PrimFloat.

#[global] Set Warnings "-register-all".

(** ** Python values, exceptions and built-ins *)

Module Py.

(** Exceptions raised by the modelled code. *)
Inductive exn :=
| TypeError (msg : string)
| KeyError (key : string)
| AttributeError (name : string)
| ZeroDivisionError.

(** The outcome of a call: a value, or a raised exception. *)
Inductive res (A : Type) :=
| Ok (a : A)
| Err (e : exn).
Arguments Ok {A} a.
Arguments Err {A} e.

#[global] Instance res_ret : MRet res := λ A a, Ok a.
#[global] Instance res_bind : MBind res := λ A B f r,
  match r with
  | Ok a => f a
  | Err e => Err e
  end.

(** [a // b] on integers: floor division, [ZeroDivisionError] on [b = 0]. *)
Definition floordiv (a b : Z) : res Z :=
  if decide (b = 0)%Z then Err ZeroDivisionError else Ok (a `div` b)%Z.

(** [math.ceil(a / b)] for integers [a], [b] with [b ≠ 0].  Python divides
    in double precision and then rounds up; for operands below [2^53], as
    list lengths are, the quotient is rounded correctly and the result is
    the exact ceiling written here. *)
Definition ceil_div (a b : Z) : Z := (- ((- a) `div` b))%Z.

(** [range(n)] *)
Definition range (n : Z) : list Z := seqZ 0 n.

(** [len(l)] *)
Definition len {A} (l : list A) : Z := Z.of_nat (length l).

(** An end point of a slice, clamped as [PySlice_AdjustIndices] does for
    a step of one: a negative index counts from the end. *)
Definition slice_index (n i : Z) : Z :=
  if decide (i < 0)%Z then Z.max 0 (i + n) else Z.min i n.

(** [l[a:b]] *)
Definition slice {A} (l : list A) (a b : Z) : list A :=
  let lo := slice_index (len l) a in
  let hi := slice_index (len l) b in
  take (Z.to_nat (hi - lo)) (drop (Z.to_nat lo) l).

(** A [str] is a sequence of code points. *)
Definition str := list N.

(** [str.isspace] on one code point ([_PyUnicode_IsWhitespace]). *)
Definition isspace (c : N) : bool :=
  ((9 <=? c) && (c <=? 13) || (28 <=? c) && (c <=? 32)
   || (c =? 133) || (c =? 160) || (c =? 5760)
   || (8192 <=? c) && (c <=? 8202)
   || (c =? 8232) || (c =? 8233) || (c =? 8239) || (c =? 8287)
   || (c =? 12288))%N.

Fixpoint lstrip (s : str) : str :=
  match s with
  | c :: s' => if isspace c then lstrip s' else s
  | [] => []
  end.

Definition rstrip (s : str) : str := reverse (lstrip (reverse s)).

(** [s.strip()] *)
Definition strip (s : str) : str := rstrip (lstrip s).

(** [sep.join(parts)] *)
Fixpoint join (sep : str) (parts : list str) : str :=
  match parts with
  | [] => []
  | [p] => p
  | p :: ps => p ++ sep ++ join sep ps
  end.

(** *** Objects

    A value is an immediate (None, bool, int, float, str, tuple) or a
    reference to a mutable object of the store; the store holds the
    dictionaries and lists. *)
Definition loc := positive.

Inductive value :=
| VNone
| VBool (b : bool)
| VInt (z : Z)
| VFloat (x : float)
| VStr (s : str)
| VTuple (items : list value)
| VRef (l : loc).

Inductive obj :=
| ODict (d : gmap string value)
| OList (items : list value).

Abbreviation dict := (gmap string value).
Abbreviation heap := (gmap loc obj).

End Py.
Import Py.

(** ** Operations on objects *)

Section Objects.
Implicit Types (σ : heap) (o : value) (k : string).

Definition as_dict σ o : res (loc * dict) :=
  match o with
  | VRef l =>
      match σ !! l with
      | Some (ODict d) => Ok (l, d)
      | _ => Err (TypeError "not a dict")
      end
  | _ => Err (TypeError "not a dict")
  end.

(** [o[k]] *)
Definition getitem σ o k : res value :=
  '(_, d) ← as_dict σ o;
  match d !! k with
  | Some v => Ok v
  | None => Err (KeyError k)
  end.

(** [o[k] = v] *)
Definition setitem σ o k (v : value) : res heap :=
  '(l, d) ← as_dict σ o;
  Ok (<[l := ODict (<[k := v]> d)]> σ).

(** [del o[k]] *)
Definition delitem σ o k : res heap :=
  '(l, d) ← as_dict σ o;
  match d !! k with
  | Some _ => Ok (<[l := ODict (delete k d)]> σ)
  | None => Err (KeyError k)
  end.

(** [list(o.keys())] *)
Definition keys σ o : res (list string) :=
  match o with
  | VRef l =>
      match σ !! l with
      | Some (ODict d) => Ok (map fst (map_to_list d))
      | _ => Err (AttributeError "keys")
      end
  | _ => Err (AttributeError "keys")
  end.

(** The items [for x in o] goes through.  The loops of this file go
    through lists (and a tuple would do); they change no list while they
    run, so the items are those at the start of the loop. *)
Definition iter σ o : res (list value) :=
  match o with
  | VRef l =>
      match σ !! l with
      | Some (OList items) => Ok items
      | _ => Err (TypeError "not a list")
      end
  | VTuple items => Ok items
  | _ => Err (TypeError "not a list")
  end.

(** [for x in items: body], the store threaded through. *)
Fixpoint for_each {A} (items : list A) (body : heap → A → res heap) σ
    : res heap :=
  match items with
  | [] => Ok σ
  | x :: items' => σ' ← body σ x; for_each items' body σ'
  end.

(** [for k in list(o.keys()): if k not in keep: del o[k]] *)
Definition prune σ o (keep : list string) : res heap :=
  ks ← keys σ o;
  for_each ks (λ σ k, if bool_decide (k ∈ keep) then Ok σ else delitem σ o k) σ.

End Objects.

(** ** Calls into the rest of the package

    [extraction.py] imports everything below; none of it is defined in
    the file.  [get_pdfium_chars] is called with two and with three
    arguments: the third one is [None] where the call leaves it out.
    [merge_text] and [sort_blocks] read the objects they are given in the
    object store.  The calls are taken to return: what pdfium, the glyph
    extractor or the model may raise is not part of this model. *)
Class Collaborators := {
  PdfDocument : Type;
  Model : Type;
  Chars : Type;
  (** [pdfium.PdfDocument(path)] *)
  open_document : str → PdfDocument;
  (** [pdf.init_forms()], as the new state of the handle *)
  init_forms : PdfDocument → PdfDocument;
  (** [len(pdf_doc)] *)
  page_count : PdfDocument → Z;
  get_model : Model;
  get_pdfium_chars : PdfDocument → list Z → option bool → list Chars;
  inference : list Chars → Model → list value;
  merge_text : heap → value → bool → bool → str;
  unnormalize_bbox : value → value → value → value;
  postprocess_text : value → value;
  (** [handle_hyphens(text, keep_hyphens=...)] *)
  handle_hyphens : value → bool → value;
  (** the items of the list [sort_blocks(blocks)] returns, from the items
      of [blocks] *)
  sort_blocks : heap → list value → list value;
  (** [settings.WORKER_PAGE_THRESHOLD] *)
  WORKER_PAGE_THRESHOLD : Z;
}.

(** ** Effects of the pipeline

    What a call does besides returning: the calls it makes into pdfium,
    the glyph extractor and the model, in order.  The work of a pool
    worker is the trace nested in its [EWorker] event; workers are listed
    in submission order. *)
Inductive event :=
| EOpen (path : str)
| EInitForms
| EGetModel
| EPageCount
| EGetChars (pages : list Z) (flatten : option bool)
| EInference (batch : nat)
| EWorker (i : nat) (chunk : list Z) (inner : list event).

(** A computation: its trace and its outcome. *)
Definition M (A : Type) : Type := list event * res A.

#[global] Instance M_ret : MRet M := λ A a, ([], Ok a).
#[global] Instance M_bind : MBind M := λ A B f m,
  match m with
  | (t, Ok a) => let '(t', r) := f a in (t ++ t', r)
  | (t, Err e) => (t, Err e)
  end.

Definition tell (t : list event) : M unit := (t, Ok ()).
Definition raise {A} (e : exn) : M A := ([], Err e).
Definition lift {A} (r : res A) : M A := ([], r).

(** The first argument of the two entry points: any Python value, or a
    [pdfium.PdfDocument]. *)
Inductive source `{Collaborators} :=
| SValue (v : value)
| SDocument (d : PdfDocument).

(** How often [init_forms] occurs in an event, workers included. *)
Fixpoint event_init_forms (e : event) : nat :=
  match e with
  | EInitForms => 1
  | EWorker _ _ inner => list_sum (map event_init_forms inner)
  | _ => 0
  end.

Definition count_init_forms (t : list event) : nat :=
  list_sum (map event_init_forms t).

(** ** extraction.py: the pipeline *)

Section Pipeline.
Context `{Collaborators}.

Definition call_get_pdfium_chars (pdf_doc : PdfDocument) (page_range : list Z)
    (flatten_pdf : option bool) : M (list Chars) :=
  tell [EGetChars page_range flatten_pdf];;
  mret (get_pdfium_chars pdf_doc page_range flatten_pdf).

Definition call_inference (text_chars : list Chars) (model : Model)
    : M (list value) :=
  tell [EInference (length text_chars)];;
  mret (inference text_chars model).

Definition _process_pdf (pdf : source) (flatten_pdf : bool) : M PdfDocument :=
  pdf ← match pdf with
        | SValue (VStr path) => tell [EOpen path];; mret (open_document path)
        | SDocument d => mret d
        | SValue _ =>
            raise (TypeError
                     "pdf must be a file path string or a PdfDocument object")
        end;
  (* Must be called on the parent pdf, before the page was retrieved *)
  if flatten_pdf
  then tell [EInitForms];; mret (init_forms pdf)
  else mret pdf.

Definition _get_page_range (pdf_doc : PdfDocument) (model : Model)
    (page_range : list Z) : M (list value) :=
  text_chars ← call_get_pdfium_chars pdf_doc page_range None;
  call_inference text_chars model.

(** [workers = min(workers, len(page_range) // settings.WORKER_PAGE_THRESHOLD)]
    under [if workers is not None] *)
Definition cap_workers (page_range : list Z) (workers : option Z)
    : res (option Z) :=
  match workers with
  | None => Ok None
  | Some w =>
      q ← floordiv (len page_range) WORKER_PAGE_THRESHOLD;
      Ok (Some (Z.min w q))
  end.

(** [workers is None or workers <= 1] *)
Definition sequential (workers : option Z) : bool :=
  match workers with
  | None => true
  | Some w => bool_decide (w ≤ 1)%Z
  end.

Definition pages_per_worker (page_range : list Z) (workers : Z) : Z :=
  ceil_div (len page_range) workers.

(** [[page_range[i * pages_per_worker:(i + 1) * pages_per_worker]
      for i in range(workers)]] *)
Definition page_range_chunks (page_range : list Z) (workers : Z)
    : list (list Z) :=
  let ppw := pages_per_worker page_range workers in
  map (λ i, slice page_range (i * ppw) ((i + 1) * ppw))%Z (range workers).

(** The exception [list(executor.map(...))] re-raises, if any: the one of
    the first failed task in submission order. *)
Fixpoint collect {A} (rs : list (res A)) : res (list A) :=
  match rs with
  | [] => Ok []
  | r :: rs' => a ← r; as' ← collect rs'; Ok (a :: as')
  end.

(** [list(executor.map(func, chunks))] inside the [with] block: every chunk
    is submitted, every worker runs, and the results come back in
    submission order. *)
Definition executor_map {A} (func : list Z → M A) (chunks : list (list Z))
    : M (list A) :=
  (imap (λ i chunk, EWorker i chunk (func chunk).1) chunks,
   collect (map (λ chunk, (func chunk).2) chunks)).

Definition _get_pages (pdf_doc : PdfDocument) (model : option Model)
    (page_range : option (list Z)) (flatten_pdf : bool) (workers : option Z)
    : M (list value) :=
  model ← match model with
          | None => tell [EGetModel];; mret get_model
          | Some m => mret m
          end;
  page_range ← match page_range with
               | None => tell [EPageCount];; mret (range (page_count pdf_doc))
               | Some r => mret r
               end;
  workers ← lift (cap_workers page_range workers);
  if sequential workers then
    text_chars ← call_get_pdfium_chars pdf_doc page_range (Some flatten_pdf);
    call_inference text_chars model
  else
    let workers := default 0%Z workers in
    let func := _get_page_range pdf_doc model in
    let page_range_chunks := page_range_chunks page_range workers in
    pages ← executor_map func page_range_chunks;
    let ordered_pages := concat pages in
    mret ordered_pages.

Definition paginated_plain_text_output (σ : heap) (pdf_doc : PdfDocument)
    (sort : bool) (model : option Model) (hyphens : bool)
    (page_range : option (list Z)) (flatten_pdf : bool) (workers : option Z)
    : M (list str) :=
  pages ← _get_pages pdf_doc model page_range flatten_pdf workers;
  mret (map (λ page, strip (merge_text σ page sort hyphens)) pages).

Definition plain_text_output (σ : heap) (pdf : source) (sort : bool)
    (model : option Model) (hyphens : bool) (page_range : option (list Z))
    (flatten_pdf : bool) (workers : option Z) : M str :=
  pdf_doc ← _process_pdf pdf flatten_pdf;
  text ← paginated_plain_text_output σ pdf_doc sort model hyphens page_range
           flatten_pdf workers;
  mret (join [10%N] text).

End Pipeline.

(** ** extraction.py: the dictionary assembler *)

Section Assembler.
Context `{Collaborators}.

Definition char_body (page_width page_height : value) (σ : heap)
    (char : value) : res heap :=
  bbox ← getitem σ char "bbox";
  setitem σ char "bbox" (unnormalize_bbox bbox page_width page_height).

Definition _process_span (σ : heap) (span page_width page_height : value)
    (keep_chars : bool) : res heap :=
  bbox ← getitem σ span "bbox";
  σ ← setitem σ span "bbox" (unnormalize_bbox bbox page_width page_height);
  text ← getitem σ span "text";
  σ ← setitem σ span "text" (handle_hyphens (postprocess_text text) true);
  if negb keep_chars then delitem σ span "chars"
  else
    chars ← getitem σ span "chars";
    items ← iter σ chars;
    for_each items (char_body page_width page_height) σ.

(** The body of [for line in block["lines"]]. *)
Definition line_body (page_width page_height : value) (keep_chars : bool)
    (σ : heap) (line : value) : res heap :=
  σ ← prune σ line ["spans"; "bbox"];
  bbox ← getitem σ line "bbox";
  σ ← setitem σ line "bbox" (unnormalize_bbox bbox page_width page_height);
  spans ← getitem σ line "spans";
  items ← iter σ spans;
  for_each items
    (λ σ span, _process_span σ span page_width page_height keep_chars) σ.

(** The body of [for block in page["blocks"]]. *)
Definition block_body (page_width page_height : value) (keep_chars : bool)
    (σ : heap) (block : value) : res heap :=
  σ ← prune σ block ["lines"; "bbox"];
  bbox ← getitem σ block "bbox";
  σ ← setitem σ block "bbox" (unnormalize_bbox bbox page_width page_height);
  lines ← getitem σ block "lines";
  items ← iter σ lines;
  for_each items (line_body page_width page_height keep_chars) σ.

(** [page["blocks"] = sort_blocks(page["blocks"])]: the sorted list is a
    new object. *)
Definition sort_page (σ : heap) (page : value) : res heap :=
  blocks ← getitem σ page "blocks";
  items ← iter σ blocks;
  let sorted := fresh (dom σ) in
  setitem (<[sorted := OList (sort_blocks σ items)]> σ) page "blocks"
    (VRef sorted).

(** The body of [for page in pages]. *)
Definition page_body (sort keep_chars : bool) (σ : heap) (page : value)
    : res heap :=
  page_width ← getitem σ page "width";
  page_height ← getitem σ page "height";
  blocks ← getitem σ page "blocks";
  items ← iter σ blocks;
  σ ← for_each items (block_body page_width page_height keep_chars) σ;
  if sort then sort_page σ page else Ok σ.

(** Lines 90 to 108: the loop over the pages; [pages] itself is what
    [dictionary_output] returns. *)
Definition assemble (σ : heap) (pages : list value) (sort keep_chars : bool)
    : res heap :=
  for_each pages (page_body sort keep_chars) σ.

(** [σ] is the object store when [_get_pages] returns: the pages built by
    inference live in it. *)
Definition dictionary_output (σ : heap) (pdf : source) (sort : bool)
    (model : option Model) (page_range : option (list Z))
    (flatten_pdf keep_chars : bool) (workers : option Z)
    : M (list value * heap) :=
  pdf_doc ← _process_pdf pdf flatten_pdf;
  pages ← _get_pages pdf_doc model page_range flatten_pdf workers;
  σ' ← lift (assemble σ pages sort keep_chars);
  mret (pages, σ').

End Assembler.

(** ** Vocabulary of the statements *)

Section Vocabulary.
Context `{Collaborators}.

(** The model and the page range [_get_pages] works with once it has
    filled in its defaults, and the calls that filling them in makes. *)
Definition the_model (model : option Model) : Model := default get_model model.

Definition the_range (pdf_doc : PdfDocument) (page_range : option (list Z))
    : list Z :=
  default (range (page_count pdf_doc)) page_range.

Definition prelude (model : option Model) (page_range : option (list Z))
    : list event :=
  (if model is Some _ then [] else [EGetModel])
  ++ (if page_range is Some _ then [] else [EPageCount]).

(** The pages the model returns for a page range, the glyph extractor
    called with [flatten_pdf]. *)
Definition infer_range (pdf_doc : PdfDocument) (model : Model)
    (flatten_pdf : option bool) (page_range : list Z) : list value :=
  inference (get_pdfium_chars pdf_doc page_range flatten_pdf) model.

(** The trace of one glyph extraction followed by inference. *)
Definition extraction_events (pdf_doc : PdfDocument)
    (flatten_pdf : option bool) (page_range : list Z) : list event :=
  [EGetChars page_range flatten_pdf;
   EInference (length (get_pdfium_chars pdf_doc page_range flatten_pdf))].

(** [isinstance(pdf, str) or isinstance(pdf, pdfium.PdfDocument)] *)
Definition accepted (pdf : source) : bool :=
  match pdf with
  | SValue (VStr _) | SDocument _ => true
  | SValue _ => false
  end.

End Vocabulary.

(** *** Page trees in the store

    The objects a page is made of, as a tree: for each dictionary its
    location and its content, for each list of children its location.
    [page_in σ p] says that the store holds exactly these objects;
    [page_wf p] that the dictionaries have the keys the assembler reads;
    [page_locs p] are the dictionaries of the tree, so [NoDup (page_locs p)]
    says that no dictionary occurs twice in it. *)
Record char_t := CharT { c_loc : loc; c_dict : dict }.
Record span_t := SpanT {
  s_loc : loc; s_dict : dict; s_chars_loc : loc; s_chars : list char_t }.
Record line_t := LineT {
  l_loc : loc; l_dict : dict; l_spans_loc : loc; l_spans : list span_t }.
Record block_t := BlockT {
  b_loc : loc; b_dict : dict; b_lines_loc : loc; b_lines : list line_t }.
Record page_t := PageT {
  p_loc : loc; p_dict : dict; p_blocks_loc : loc; p_blocks : list block_t }.

Definition char_ref (c : char_t) : value := VRef (c_loc c).
Definition span_ref (s : span_t) : value := VRef (s_loc s).
Definition line_ref (l : line_t) : value := VRef (l_loc l).
Definition block_ref (b : block_t) : value := VRef (b_loc b).
Definition page_ref (p : page_t) : value := VRef (p_loc p).

Definition char_locs (c : char_t) : list loc := [c_loc c].
Definition span_locs (s : span_t) : list loc :=
  s_loc s :: concat (map char_locs (s_chars s)).
Definition line_locs (l : line_t) : list loc :=
  l_loc l :: concat (map span_locs (l_spans l)).
Definition block_locs (b : block_t) : list loc :=
  b_loc b :: concat (map line_locs (b_lines b)).
Definition page_locs (p : page_t) : list loc :=
  p_loc p :: concat (map block_locs (p_blocks p)).

Definition char_in (σ : heap) (c : char_t) : Prop :=
  σ !! c_loc c = Some (ODict (c_dict c)).
Definition span_in (σ : heap) (s : span_t) : Prop :=
  σ !! s_loc s = Some (ODict (s_dict s))
  ∧ σ !! s_chars_loc s = Some (OList (map char_ref (s_chars s)))
  ∧ Forall (char_in σ) (s_chars s).
Definition line_in (σ : heap) (l : line_t) : Prop :=
  σ !! l_loc l = Some (ODict (l_dict l))
  ∧ σ !! l_spans_loc l = Some (OList (map span_ref (l_spans l)))
  ∧ Forall (span_in σ) (l_spans l).
Definition block_in (σ : heap) (b : block_t) : Prop :=
  σ !! b_loc b = Some (ODict (b_dict b))
  ∧ σ !! b_lines_loc b = Some (OList (map line_ref (b_lines b)))
  ∧ Forall (line_in σ) (b_lines b).
Definition page_in (σ : heap) (p : page_t) : Prop :=
  σ !! p_loc p = Some (ODict (p_dict p))
  ∧ σ !! p_blocks_loc p = Some (OList (map block_ref (p_blocks p)))
  ∧ Forall (block_in σ) (p_blocks p).

Definition char_wf (c : char_t) : Prop := is_Some (c_dict c !! "bbox").
Definition span_wf (s : span_t) : Prop :=
  is_Some (s_dict s !! "bbox") ∧ is_Some (s_dict s !! "text")
  ∧ s_dict s !! "chars" = Some (VRef (s_chars_loc s))
  ∧ Forall char_wf (s_chars s).
Definition line_wf (l : line_t) : Prop :=
  is_Some (l_dict l !! "bbox")
  ∧ l_dict l !! "spans" = Some (VRef (l_spans_loc l))
  ∧ Forall span_wf (l_spans l).
Definition block_wf (b : block_t) : Prop :=
  is_Some (b_dict b !! "bbox")
  ∧ b_dict b !! "lines" = Some (VRef (b_lines_loc b))
  ∧ Forall line_wf (b_lines b).
Definition page_wf (p : page_t) : Prop :=
  is_Some (p_dict p !! "width") ∧ is_Some (p_dict p !! "height")
  ∧ p_dict p !! "blocks" = Some (VRef (p_blocks_loc p))
  ∧ Forall block_wf (p_blocks p).

(** Only the dictionaries of [M] differ between [σ] and [σ'], and they
    are dictionaries in both; with [alloc], [σ'] may also hold new objects,
    none of them a dictionary, at locations that [σ] does not use. *)
Definition modifies_only (alloc : bool) (M : list loc) (σ σ' : heap) : Prop :=
  ∀ l, σ' !! l = σ !! l
       ∨ (l ∈ M ∧ ∃ d d', σ !! l = Some (ODict d) ∧ σ' !! l = Some (ODict d'))
       ∨ (alloc = true ∧ σ !! l = None ∧ ∀ d, σ' !! l ≠ Some (ODict d)).

(** The keys of [d] that the deletion loop leaves, after it has gone
    through [ks]. *)
Definition prune_keys (keep ks : list string) (d : dict) : dict :=
  foldl (λ d k, if bool_decide (k ∈ keep) then d else delete k d) d ks.
Definition pruned (keep : list string) (d : dict) : dict :=
  prune_keys keep (map fst (map_to_list d)) d.

(** Every key of [d] is one of [allowed]. *)
Definition keys_within (allowed : list string) (d : dict) : Prop :=
  ∀ k, is_Some (d !! k) → k ∈ allowed.

Section Assembled.
Context `{Collaborators}.

(** *** The assembled tree

    What the assembler makes of each dictionary, for a page of width [W]
    and height [H]. *)
Definition denormalized (W H : value) (d : dict) : dict :=
  match d !! "bbox" with
  | Some bbox => <["bbox" := unnormalize_bbox bbox W H]> d
  | None => d
  end.

Definition cleaned (d : dict) : dict :=
  match d !! "text" with
  | Some text => <["text" := handle_hyphens (postprocess_text text) true]> d
  | None => d
  end.

Definition char_out (W H : value) (c : char_t) : char_t :=
  CharT (c_loc c) (denormalized W H (c_dict c)).

Definition span_out (W H : value) (keep_chars : bool) (s : span_t) : span_t :=
  if keep_chars then
    SpanT (s_loc s) (cleaned (denormalized W H (s_dict s))) (s_chars_loc s)
      (map (char_out W H) (s_chars s))
  else
    SpanT (s_loc s) (delete "chars" (cleaned (denormalized W H (s_dict s))))
      (s_chars_loc s) (s_chars s).

Definition line_out (W H : value) (keep_chars : bool) (l : line_t) : line_t :=
  LineT (l_loc l) (denormalized W H (pruned ["spans"; "bbox"] (l_dict l)))
    (l_spans_loc l) (map (span_out W H keep_chars) (l_spans l)).

Definition block_out (W H : value) (keep_chars : bool) (b : block_t)
    : block_t :=
  BlockT (b_loc b) (denormalized W H (pruned ["lines"; "bbox"] (b_dict b)))
    (b_lines_loc b) (map (line_out W H keep_chars) (b_lines b)).

Definition page_width (p : page_t) : value := default VNone (p_dict p !! "width").
Definition page_height (p : page_t) : value :=
  default VNone (p_dict p !! "height").

Definition blocks_out (keep_chars : bool) (p : page_t) : list block_t :=
  map (block_out (page_width p) (page_height p) keep_chars) (p_blocks p).

(** The pattern [line_body] and [block_body] share: keep the keys of
    [keep], denormalize the bbox, run [body] on the items under [ck]. *)
Definition node_body (keep : list string) (ck : string)
    (body : heap → value → res heap) (W H : value) (σ : heap) (o : value)
    : res heap :=
  σ ← prune σ o keep;
  bbox ← getitem σ o "bbox";
  σ ← setitem σ o "bbox" (unnormalize_bbox bbox W H);
  kids ← getitem σ o ck;
  items ← iter σ kids;
  for_each items body σ.

(** The page [p'] that [page_body] leaves for the page [p]: the same
    dictionary over the assembled blocks or, with [sort], the dictionary
    with a new list of the assembled blocks, in the order [sort_blocks]
    chose, under "blocks". *)
Definition page_result (sort keep_chars : bool) (p p' : page_t) : Prop :=
  if sort then
    ∃ sorted blocks',
      blocks' ≡ₚ blocks_out keep_chars p
      ∧ p' = PageT (p_loc p) (<["blocks" := VRef sorted]> (p_dict p)) sorted
               blocks'
  else p' = PageT (p_loc p) (p_dict p) (p_blocks_loc p) (blocks_out keep_chars p).

(** The fields the blocks and lines of a page are left with. *)
Definition page_pruned (p : page_t) : Prop :=
  Forall (λ b, keys_within ["lines"; "bbox"] (b_dict b)
               ∧ Forall (λ l, keys_within ["spans"; "bbox"] (l_dict l))
                   (b_lines b))
    (p_blocks p).

End Assembled.

(** No white space at either end. *)
Definition stripped (s : str) : Prop :=
  (∀ c, head s = Some c → isspace c = false)
  ∧ (∀ c, last s = Some c → isspace c = false).

(** ** Sample collaborators

    Stand-ins for the imported functions, for running the model on
    concrete inputs. *)

(** Modelled from the spec: [unnormalize_bbox] of [pdftext.pdf.utils],
    which is not in this file; x coordinates are multiplied by the page
    width and y coordinates by the page height. *)
Definition scale_bbox (bbox page_width page_height : value) : value :=
  match bbox, page_width, page_height with
  | VTuple [VFloat x0; VFloat y0; VFloat x1; VFloat y1], VFloat w, VFloat h =>
      VTuple [VFloat (x0 * w); VFloat (y0 * h); VFloat (x1 * w);
              VFloat (y1 * h)]
  | _, _, _ => VNone
  end.

(** Documents are numbered handles, a glyph record is the page index it
    was read from, the model answers with a reference per page (page [i] is
    the object at location [i + 1]), blocks are kept in the order they
    have, and the page threshold is 10. *)
Definition sample : Collaborators := {|
  PdfDocument := nat;
  Model := unit;
  Chars := Z;
  open_document := λ _, 0;
  init_forms := S;
  page_count := λ _, 25%Z;
  get_model := ();
  get_pdfium_chars := λ _ page_range _, page_range;
  inference := λ text_chars _, map (λ i, VRef (Z.to_pos (i + 1))) text_chars;
  merge_text := λ _ _ _ _, [32%N; 72%N; 105%N; 10%N];
  unnormalize_bbox := scale_bbox;
  postprocess_text := id;
  handle_hyphens := λ text _, text;
  sort_blocks := λ _ blocks, blocks;
  WORKER_PAGE_THRESHOLD := 10
|}.

(** A store with one page, as inference leaves it: a page of 640 by 480
    with one block, one line, one span and one char.  The block and the
    line carry a transient field, the char carries its glyph. *)
Definition sample_bbox : value :=
  VTuple [VFloat 0.25; VFloat 0.5; VFloat 0.75; VFloat 1].

Definition sample_char : char_t :=
  CharT 17%positive (<["bbox" := sample_bbox]> (<["char" := VStr [72%N]]> ∅)).
Definition sample_span : span_t :=
  SpanT 15%positive
    (<["bbox" := sample_bbox]>
       (<["text" := VStr [72%N]]> (<["chars" := VRef 16%positive]> ∅)))
    16%positive [sample_char].
Definition sample_line : line_t :=
  LineT 13%positive
    (<["bbox" := sample_bbox]>
       (<["spans" := VRef 14%positive]> (<["label" := VInt 3]> ∅)))
    14%positive [sample_span].
Definition sample_block : block_t :=
  BlockT 11%positive
    (<["bbox" := sample_bbox]>
       (<["lines" := VRef 12%positive]> (<["label" := VInt 7]> ∅)))
    12%positive [sample_line].
Definition sample_page : page_t :=
  PageT 1%positive
    (<["width" := VFloat 640]>
       (<["height" := VFloat 480]> (<["blocks" := VRef 10%positive]> ∅)))
    10%positive [sample_block].

Definition sample_store : heap :=
  <[1%positive := ODict (p_dict sample_page)]>
  (<[10%positive := OList [VRef 11%positive]]>
  (<[11%positive := ODict (b_dict sample_block)]>
  (<[12%positive := OList [VRef 13%positive]]>
  (<[13%positive := ODict (l_dict sample_line)]>
  (<[14%positive := OList [VRef 15%positive]]>
  (<[15%positive := ODict (s_dict sample_span)]>
  (<[16%positive := OList [VRef 17%positive]]>
  (<[17%positive := ODict (c_dict sample_char)]> ∅)))))))).

(** The bbox of the sample, for a page of 640 by 480. *)
Definition sample_bbox_px : value :=
  VTuple [VFloat 160; VFloat 240; VFloat 480; VFloat 480].

(** The store after [dictionary_output] with [keep_chars] true. *)
Definition sample_store_kept : heap :=
  <[1%positive := ODict (p_dict sample_page)]>
  (<[10%positive := OList [VRef 11%positive]]>
  (<[11%positive :=
       ODict (<["bbox" := sample_bbox_px]> (<["lines" := VRef 12%positive]> ∅))]>
  (<[12%positive := OList [VRef 13%positive]]>
  (<[13%positive :=
       ODict (<["bbox" := sample_bbox_px]> (<["spans" := VRef 14%positive]> ∅))]>
  (<[14%positive := OList [VRef 15%positive]]>
  (<[15%positive :=
       ODict (<["bbox" := sample_bbox_px]>
                (<["text" := VStr [72%N]]> (<["chars" := VRef 16%positive]> ∅)))]>
  (<[16%positive := OList [VRef 17%positive]]>
  (<[17%positive :=
       ODict (<["bbox" := sample_bbox_px]> (<["char" := VStr [72%N]]> ∅))]>
     ∅)))))))).

(** The store after [dictionary_output] with [keep_chars] false. *)
Definition sample_store_dropped : heap :=
  <[1%positive := ODict (p_dict sample_page)]>
  (<[10%positive := OList [VRef 11%positive]]>
  (<[11%positive :=
       ODict (<["bbox" := sample_bbox_px]> (<["lines" := VRef 12%positive]> ∅))]>
  (<[12%positive := OList [VRef 13%positive]]>
  (<[13%positive :=
       ODict (<["bbox" := sample_bbox_px]> (<["spans" := VRef 14%positive]> ∅))]>
  (<[14%positive := OList [VRef 15%positive]]>
  (<[15%positive :=
       ODict (<["bbox" := sample_bbox_px]> (<["text" := VStr [72%N]]> ∅))]>
  (<[16%positive := OList [VRef 17%positive]]>
  (<[17%positive := ODict (c_dict sample_char)]> ∅)))))))).

(** Goals about the sample tree: lookups are computed. *)
Ltac sample_tree :=
  repeat first
    [ apply Forall_nil_2 | apply Forall_cons_2
    | match goal with
      | |- is_Some _ => by eexists
      | |- char_wf _ => by eexists
      | |- _ !! _ = _ => by vm_compute
      end
    | split ].

(** *** Further vocabulary *)

(** White space only. *)
Definition all_space (s : str) : Prop := Forall (λ c, isspace c = true) s.

(** How often the newline occurs in a string. *)
Definition newlines (s : str) : nat := count_occ N.eq_dec s 10%N.

Section PathVocabulary.
Context `{Collaborators}.


End PathVocabulary.

(** Between [σ] and [σ'] no object has gone, every list is as it was,
    every dictionary is still a dictionary, and what is new is a list
    (only with [alloc]). *)
Definition dict_writes (alloc : bool) (σ σ' : heap) : Prop :=
  ∀ l, σ' !! l = σ !! l
       ∨ (∃ d d', σ !! l = Some (ODict d) ∧ σ' !! l = Some (ODict d'))
       ∨ (alloc = true ∧ σ !! l = None
          ∧ ∃ items, σ' !! l = Some (OList items)).

(** The sample collaborators with the page threshold set to 0. *)
Definition sample_zero : Collaborators := {|
  PdfDocument := nat;
  Model := unit;
  Chars := Z;
  open_document := λ _, 0;
  init_forms := S;
  page_count := λ _, 25%Z;
  get_model := ();
  get_pdfium_chars := λ _ page_range _, page_range;
  inference := λ text_chars _, map (λ i, VRef (Z.to_pos (i + 1))) text_chars;
  merge_text := λ _ _ _ _, [32%N; 72%N; 105%N; 10%N];
  unnormalize_bbox := scale_bbox;
  postprocess_text := id;
  handle_hyphens := λ text _, text;
  sort_blocks := λ _ blocks, blocks;
  WORKER_PAGE_THRESHOLD := 0
|}.

(** * Properties *)

(** ** Slices and the chunks of a page range *)

Section Slices.
Context {A : Type}.
Implicit Types (l : list A) (a b p : Z).

Lemma slice_nonneg l a b :
  (0 ≤ a ≤ b)%Z →
  slice l a b = take (Z.to_nat (b - a)) (drop (Z.to_nat a) l).
Proof.
  intros Hab. unfold slice, slice_index.
  repeat case_decide; try lia.
  destruct (decide (a ≤ len l)%Z) as [Ha|Ha].
  - rewrite (Z.min_l a) by lia.
    destruct (decide (b ≤ len l)%Z) as [Hb|Hb].
    + by rewrite (Z.min_l b) by lia.
    + rewrite (Z.min_r b) by lia. unfold len in *.
      rewrite !take_ge; [done|rewrite length_drop; lia..].
  - rewrite !Z.min_r by lia. rewrite Z.sub_diag. simpl. unfold len in *.
    rewrite (drop_ge l (Z.to_nat a)) by lia. by rewrite take_nil.
Qed.

Lemma length_slice_nonneg l a b :
  (0 ≤ a ≤ b)%Z →
  Z.of_nat (length (slice l a b)) = (Z.min (b - a) (Z.max 0 (len l - a)))%Z.
Proof.
  intros Hab. rewrite slice_nonneg by done.
  rewrite length_take, length_drop. unfold len. lia.
Qed.

(** The first [k] slices of width [p], put end to end, are the first
    [k * p] items. *)
Lemma concat_slices l p (k : nat) :
  (0 ≤ p)%Z →
  concat (map (λ i, slice l (i * p) ((i + 1) * p))%Z (range (Z.of_nat k)))
  = take (k * Z.to_nat p) l.
Proof.
  intros Hp. unfold range. induction k as [|k IH].
  - done.
  - rewrite seqZ_S, map_app, concat_app, IH. simpl.
    rewrite app_nil_r, slice_nonneg by lia.
    match goal with
    | |- context [take (Z.to_nat ?x) (drop (Z.to_nat ?y) l)] =>
        replace (Z.to_nat x) with (Z.to_nat p) by lia;
        replace (Z.to_nat y) with (k * Z.to_nat p) by lia
    end.
    rewrite take_take_drop. f_equal. lia.
Qed.

End Slices.

Lemma ceil_div_covers (n w : Z) : (0 < w)%Z → (n ≤ w * ceil_div n w)%Z.
Proof.
  intros Hw. unfold ceil_div.
  pose proof (Z.mul_div_le (- n) w Hw). lia.
Qed.

Lemma ceil_div_tight (n w : Z) : (0 < w)%Z → (w * ceil_div n w < n + w)%Z.
Proof.
  intros Hw. unfold ceil_div.
  pose proof (Z.mul_succ_div_gt (- n) w Hw). lia.
Qed.

Lemma ceil_div_nonneg (n w : Z) : (0 ≤ n)%Z → (0 < w)%Z → (0 ≤ ceil_div n w)%Z.
Proof.
  intros Hn Hw. pose proof (ceil_div_covers n w Hw). nia.
Qed.

Lemma ceil_div_pos (n w : Z) : (0 < n)%Z → (0 < w)%Z → (0 < ceil_div n w)%Z.
Proof.
  intros Hn Hw. pose proof (ceil_div_covers n w Hw). nia.
Qed.

Section Partition.
Context `{Collaborators}.
Implicit Types (page_range : list Z) (w : Z).

Lemma concat_page_range_chunks page_range w :
  (1 ≤ w)%Z → concat (page_range_chunks page_range w) = page_range.
Proof.
  intros Hw. unfold page_range_chunks, pages_per_worker.
  pose proof (ceil_div_covers (len page_range) w ltac:(lia)) as Hc.
  pose proof (ceil_div_nonneg (len page_range) w ltac:(unfold len; lia)
                ltac:(lia)) as Hp.
  remember (ceil_div (len page_range) w) as p eqn:Ep. clear Ep.
  rewrite <- (Z2Nat.id w) by lia.
  rewrite concat_slices by done. apply take_ge. unfold len in *. nia.
Qed.

(** Chunk [i] is empty or not by where it starts. *)
Lemma chunk_lookup_nonempty page_range w (i : nat) chunk :
  (1 ≤ w)%Z → page_range ≠ [] →
  page_range_chunks page_range w !! i = Some chunk →
  chunk ≠ [] ↔ (Z.of_nat i * pages_per_worker page_range w < len page_range)%Z.
Proof.
  intros Hw Hr Hi.
  assert (0 < len page_range)%Z as Hn
    by (unfold len; destruct page_range; [done|simpl; lia]).
  pose proof (ceil_div_pos (len page_range) w Hn ltac:(lia)) as Hp.
  fold (pages_per_worker page_range w) in Hp.
  unfold page_range_chunks in Hi. rewrite list_lookup_fmap in Hi.
  unfold range in Hi.
  destruct (seqZ 0 w !! i) as [j|] eqn:Hj; [|done].
  apply lookup_seqZ in Hj as [-> Hlt]. simpl in Hi. injection Hi as <-.
  remember (pages_per_worker page_range w) as ppw eqn:Eppw. clear Eppw.
  pose proof (length_slice_nonneg page_range ((0 + Z.of_nat i) * ppw)
                ((0 + Z.of_nat i + 1) * ppw) ltac:(nia)) as Hlen.
  rewrite <- length_zero_iff_nil.
  split; intros; [|nia].
  destruct (decide (Z.of_nat i * ppw < len page_range)%Z); [done|]. nia.
Qed.

(** All chunks are non-empty exactly when the last one is. *)
Lemma chunks_all_nonempty page_range w :
  (1 ≤ w)%Z → page_range ≠ [] →
  Forall (λ chunk, chunk ≠ []) (page_range_chunks page_range w)
  ↔ ((w - 1) * pages_per_worker page_range w < len page_range)%Z.
Proof.
  intros Hw Hr.
  assert (0 < len page_range)%Z as Hn
    by (unfold len; destruct page_range; [done|simpl; lia]).
  pose proof (ceil_div_pos (len page_range) w Hn ltac:(lia)) as Hp.
  fold (pages_per_worker page_range w) in Hp.
  rewrite Forall_lookup. split.
  - intros Hf.
    assert (∃ chunk,
              page_range_chunks page_range w !! Z.to_nat (w - 1) = Some chunk)
      as [chunk Hl].
    { apply lookup_lt_is_Some. unfold page_range_chunks, range.
      rewrite length_map, length_seqZ. lia. }
    pose proof (proj1 (chunk_lookup_nonempty _ _ _ _ Hw Hr Hl) (Hf _ _ Hl))
      as Hlast.
    by rewrite Z2Nat.id in Hlast by lia.
  - intros Hlast i chunk Hi.
    apply (chunk_lookup_nonempty _ _ _ _ Hw Hr Hi).
    apply lookup_lt_Some in Hi. unfold page_range_chunks, range in Hi.
    rewrite length_map, length_seqZ in Hi. nia.
Qed.

Lemma cap_workers_parallel page_range workers w :
  cap_workers page_range workers = Ok (Some w) →
  sequential (Some w) = false →
  (2 ≤ w)%Z ∧ (0 < WORKER_PAGE_THRESHOLD)%Z
  ∧ (w * WORKER_PAGE_THRESHOLD ≤ len page_range)%Z
  ∧ ∃ requested, workers = Some requested ∧ (w ≤ requested)%Z.
Proof.
  unfold cap_workers, sequential, floordiv.
  destruct workers as [r|]; [|done]. simpl.
  case_decide as HT; [done|]. simpl. intros [= <-] Hseq.
  apply bool_decide_eq_false in Hseq.
  assert (0 < WORKER_PAGE_THRESHOLD)%Z as Hpos.
  { destruct (decide (0 < WORKER_PAGE_THRESHOLD)%Z); [done|].
    assert (len page_range `div` WORKER_PAGE_THRESHOLD ≤ 0)%Z; [|lia].
    assert (WORKER_PAGE_THRESHOLD < 0)%Z as Hneg by lia.
    pose proof (Z_mult_div_ge_neg (len page_range) _ Hneg) as Hd.
    remember (len page_range `div` WORKER_PAGE_THRESHOLD)%Z as q.
    assert (0 ≤ len page_range)%Z by (unfold len; lia).
    destruct (decide (q ≤ 0)%Z); [done|].
    assert (WORKER_PAGE_THRESHOLD * q ≤ WORKER_PAGE_THRESHOLD * 1)%Z
      by (apply Z.mul_le_mono_nonpos_l; lia).
    lia. }
  split; [lia|]. split; [done|]. split.
  - pose proof (Z.mul_div_le (len page_range) WORKER_PAGE_THRESHOLD Hpos).
    nia.
  - exists r. split; [done|lia].
Qed.

End Partition.

(** ** The two paths of [_get_pages] *)

Section GetPages.
Context `{Collaborators}.
Implicit Types (pdf_doc : PdfDocument) (model : option Model)
  (page_range : option (list Z)) (workers : option Z).

Lemma collect_ok {A B} (f : A → B) (l : list A) :
  collect (map (λ x, Ok (f x)) l) = Ok (map f l).
Proof. induction l as [|x l IH]; [done|]. simpl. by rewrite IH. Qed.

Lemma _get_page_range_eq pdf_doc (m : Model) (chunk : list Z) :
  _get_page_range pdf_doc m chunk =
  (extraction_events pdf_doc None chunk, Ok (infer_range pdf_doc m None chunk)).
Proof. done. Qed.

Lemma executor_map_get_page_range pdf_doc (m : Model) chunks :
  executor_map (_get_page_range pdf_doc m) chunks =
  (imap (λ i c, EWorker i c (extraction_events pdf_doc None c)) chunks,
   Ok (map (infer_range pdf_doc m None) chunks)).
Proof.
  unfold executor_map. f_equal.
  rewrite <- collect_ok. f_equal.
Qed.

(** What [_get_pages] does, by the outcome of the cap on [workers]. *)
Lemma _get_pages_unfold pdf_doc model page_range flatten_pdf workers :
  let r := the_range pdf_doc page_range in
  let m := the_model model in
  _get_pages pdf_doc model page_range flatten_pdf workers =
  match cap_workers r workers with
  | Err e => (prelude model page_range, Err e)
  | Ok capped =>
      if sequential capped then
        (prelude model page_range
           ++ extraction_events pdf_doc (Some flatten_pdf) r,
         Ok (infer_range pdf_doc m (Some flatten_pdf) r))
      else
        let chunks := page_range_chunks r (default 0%Z capped) in
        (prelude model page_range
           ++ imap (λ i c, EWorker i c (extraction_events pdf_doc None c))
                chunks,
         Ok (concat (map (infer_range pdf_doc m None) chunks)))
  end.
Proof.
  unfold _get_pages, the_range, the_model, prelude.
  destruct model as [m|], page_range as [r|]; simpl;
    (destruct (cap_workers _ workers) as [capped|e]; simpl; [|done]);
    (destruct (sequential capped); simpl; [done|]);
    rewrite (collect_ok
               (λ chunk, inference (get_pdfium_chars pdf_doc chunk None) _));
    simpl; by rewrite ?app_nil_r.
Qed.

Lemma count_init_forms_app (t1 t2 : list event) :
  count_init_forms (t1 ++ t2) = count_init_forms t1 + count_init_forms t2.
Proof. unfold count_init_forms. by rewrite map_app, list_sum_app. Qed.

Lemma count_init_forms_workers pdf_doc (chunks : list (list Z)) (k : nat) :
  count_init_forms
    (imap (λ i c, EWorker (k + i) c (extraction_events pdf_doc None c)) chunks)
  = 0.
Proof.
  revert k. induction chunks as [|c chunks IH]; intros k; [done|].
  unfold count_init_forms in *. simpl.
  rewrite <- (IH (S k)). f_equal. f_equal. apply imap_ext.
  intros i x _. simpl. f_equal. lia.
Qed.

(** Nothing [_get_pages] does, in either path and in any worker, is a
    call of [init_forms]. *)
Lemma _get_pages_no_init_forms pdf_doc model page_range flatten_pdf workers :
  count_init_forms
    (_get_pages pdf_doc model page_range flatten_pdf workers).1 = 0.
Proof.
  rewrite _get_pages_unfold. cbv zeta.
  assert (count_init_forms (prelude model page_range) = 0) as Hp
    by (by destruct model, page_range).
  destruct (cap_workers _ workers) as [capped|e]; simpl; [|done].
  destruct (sequential capped); simpl; rewrite count_init_forms_app, Hp.
  - done.
  - apply (count_init_forms_workers pdf_doc _ 0).
Qed.

End GetPages.

(** ** The partitioner and the coordinator *)

Section Coordinator.
Context `{Collaborators}.
Implicit Types (pdf_doc : PdfDocument) (model : option Model)
  (page_range : option (list Z)) (workers : option Z).

(** C1. Whenever [_get_pages] reaches its partitioning step (the capped
    worker count is above one), the chunks it hands to the workers are
    [page_range_chunks], one worker per chunk in submission order, and put
    end to end in that order they are the page range itself: no index is
    lost, repeated or moved. *)
Theorem chunks_partition_page_range pdf_doc model page_range flatten_pdf
    workers w :
  let r := the_range pdf_doc page_range in
  cap_workers r workers = Ok (Some w) →
  sequential (Some w) = false →
  (_get_pages pdf_doc model page_range flatten_pdf workers).1
    = prelude model page_range
      ++ imap (λ i c, EWorker i c (extraction_events pdf_doc None c))
           (page_range_chunks r w)
  ∧ concat (page_range_chunks r w) = r.
Proof.
  intros r Hcap Hseq. split.
  - rewrite _get_pages_unfold. cbv zeta. fold r. by rewrite Hcap, Hseq.
  - apply concat_page_range_chunks.
    destruct (cap_workers_parallel _ _ _ Hcap Hseq). lia.
Qed.

(** C3. With [workers] unset or at most one, or with fewer than twice
    [WORKER_PAGE_THRESHOLD] pages whatever [workers] asks for, [_get_pages]
    extracts and infers the whole page range in one go in the caller's own
    context: no worker is started.  The threshold is taken to be non-zero
    (the cap divides by it). *)
Theorem few_pages_or_workers_run_sequentially pdf_doc model page_range
    flatten_pdf workers :
  let r := the_range pdf_doc page_range in
  WORKER_PAGE_THRESHOLD ≠ 0%Z →
  workers = None
  ∨ (∃ w, workers = Some w ∧ (w ≤ 1)%Z)
  ∨ (len r < WORKER_PAGE_THRESHOLD * 2)%Z →
  _get_pages pdf_doc model page_range flatten_pdf workers
  = (prelude model page_range
       ++ extraction_events pdf_doc (Some flatten_pdf) r,
     Ok (infer_range pdf_doc (the_model model) (Some flatten_pdf) r)).
Proof.
  intros r HT Hsmall. rewrite _get_pages_unfold. cbv zeta. fold r.
  destruct workers as [w|]; [|done].
  unfold cap_workers, floordiv. case_decide; [done|]. simpl.
  rewrite bool_decide_eq_true_2; [done|].
  destruct Hsmall as [?|[(w' & [= <-] & Hw)|Hlen]]; [done|lia|].
  assert (len r `div` WORKER_PAGE_THRESHOLD ≤ 1)%Z; [|lia].
  destruct (decide (0 < WORKER_PAGE_THRESHOLD)%Z) as [Hpos|Hneg].
  - assert (len r `div` WORKER_PAGE_THRESHOLD < 2)%Z; [|lia].
    apply Z.div_lt_upper_bound; lia.
  - unfold len in Hlen. lia.
Qed.

(** C4, as the code has it.  On the parallel path, with a page range
    that is not empty, chunk [i] is non-empty exactly when
    [i * pages_per_worker] is below the number of pages.  So all chunks are
    non-empty exactly when [(workers - 1) * pages_per_worker] is below the
    number of pages, which holds whenever the capped worker count is at
    most [WORKER_PAGE_THRESHOLD + 1]. *)
Theorem chunk_nonempty_iff (r : list Z) workers w :
  let chunks := page_range_chunks r w in
  let ppw := pages_per_worker r w in
  cap_workers r workers = Ok (Some w) →
  sequential (Some w) = false →
  r ≠ [] →
  length chunks = Z.to_nat w
  ∧ (∀ (i : nat) chunk, chunks !! i = Some chunk →
       chunk ≠ [] ↔ (Z.of_nat i * ppw < len r)%Z)
  ∧ (Forall (λ chunk, chunk ≠ []) chunks ↔ ((w - 1) * ppw < len r)%Z)
  ∧ ((w ≤ WORKER_PAGE_THRESHOLD + 1)%Z →
     Forall (λ chunk, chunk ≠ []) chunks).
Proof.
  intros chunks ppw Hcap Hseq Hr.
  destruct (cap_workers_parallel _ _ _ Hcap Hseq) as (Hw & HT & HwT & _).
  pose proof (ceil_div_covers (len r) w ltac:(lia)) as Hcov.
  pose proof (ceil_div_tight (len r) w ltac:(lia)) as Htight.
  fold (pages_per_worker r w) in Hcov, Htight. fold ppw in Hcov, Htight.
  pose proof (chunks_all_nonempty r w ltac:(lia) Hr) as Hall.
  split; [|split; [|split; [done|]]].
  - unfold chunks, page_range_chunks, range.
    by rewrite length_map, length_seqZ.
  - intros i chunk Hi. by apply (chunk_lookup_nonempty r w); [lia| |].
  - intros Hle. apply Hall. fold ppw. nia.
Qed.

End Coordinator.

(** *** On the sample collaborators *)

Lemma chunks_partition_page_range_witness :
  let r := @the_range sample 0 None in
  (@cap_workers sample r (Some 2%Z) = Ok (Some 2%Z)
   ∧ sequential (Some 2%Z) = false)
  ∧ ((@_get_pages sample 0 None None false (Some 2%Z)).1
       = @prelude sample None None
         ++ imap (λ i c, EWorker i c (@extraction_events sample 0 None c))
              (page_range_chunks r 2)
     ∧ concat (page_range_chunks r 2) = r).
Proof.
  split; [by vm_compute|].
  apply (@chunks_partition_page_range sample 0 None None false (Some 2%Z) 2%Z);
    reflexivity.
Defined.

Lemma few_pages_or_workers_run_sequentially_witness :
  let r := range 15 in
  ((@WORKER_PAGE_THRESHOLD sample ≠ 0)%Z
   ∧ (len r < @WORKER_PAGE_THRESHOLD sample * 2)%Z)
  ∧ @_get_pages sample 0 None (Some r) true (Some 4%Z)
    = (@prelude sample None (Some r)
         ++ @extraction_events sample 0 (Some true) r,
       Ok (@infer_range sample 0 (@the_model sample None) (Some true) r)).
Proof.
  split; [by vm_compute|].
  apply (@few_pages_or_workers_run_sequentially sample 0 None
           (Some (range 15)) true (Some 4%Z)).
  - done.
  - right. right. by vm_compute.
Defined.

Lemma chunk_nonempty_iff_witness :
  let r := range 25 in
  let chunks := page_range_chunks r 2 in
  let ppw := pages_per_worker r 2 in
  (@cap_workers sample r (Some 2%Z) = Ok (Some 2%Z)
   ∧ sequential (Some 2%Z) = false ∧ r ≠ [])
  ∧ (length chunks = Z.to_nat 2
     ∧ (∀ (i : nat) chunk, chunks !! i = Some chunk →
          chunk ≠ [] ↔ (Z.of_nat i * ppw < len r)%Z)
     ∧ (Forall (λ chunk, chunk ≠ []) chunks ↔ ((2 - 1) * ppw < len r)%Z)
     ∧ ((2 ≤ @WORKER_PAGE_THRESHOLD sample + 1)%Z →
        Forall (λ chunk, chunk ≠ []) chunks)).
Proof.
  split; [by vm_compute|].
  apply (@chunk_nonempty_iff sample (range 25) (Some 2%Z) 2%Z); by vm_compute.
Defined.

(** C4 fails as stated: with the threshold at 10, 121 pages and 12
    requested workers take the parallel path (the cap leaves 12 workers),
    pages_per_worker is 11, and the twelfth chunk, [page_range[121:132]],
    is empty. *)
Lemma twelfth_chunk_is_empty :
  @cap_workers sample (range 121) (Some 12%Z) = Ok (Some 12%Z)
  ∧ sequential (Some 12%Z) = false
  ∧ range 121 ≠ []
  ∧ pages_per_worker (range 121) 12 = 11%Z
  ∧ page_range_chunks (range 121) 12 !! 11 = Some [].
Proof. by vm_compute. Qed.

(** The same happens at every positive threshold [t], with [(t + 1)²]
    pages and [t + 2] workers. *)
Lemma last_chunk_empty_at_any_threshold `{Collaborators} :
  let t := WORKER_PAGE_THRESHOLD in
  let r := range ((t + 1) * (t + 1)) in
  (0 < t)%Z →
  cap_workers r (Some (t + 2)%Z) = Ok (Some (t + 2)%Z)
  ∧ sequential (Some (t + 2)%Z) = false
  ∧ ¬ Forall (λ chunk, chunk ≠ []) (page_range_chunks r (t + 2)).
Proof.
  intros t r Ht.
  assert (len r = (t + 1) * (t + 1))%Z as Hlen.
  { unfold len, r, range. rewrite length_seqZ. lia. }
  assert (cap_workers r (Some (t + 2)%Z) = Ok (Some (t + 2)%Z)) as Hcap.
  { unfold cap_workers, floordiv. fold t. case_decide; [lia|]. simpl.
    do 2 f_equal. rewrite Hlen.
    assert (t + 2 ≤ ((t + 1) * (t + 1)) `div` t)%Z; [|lia].
    apply Z.div_le_lower_bound; lia. }
  assert (sequential (Some (t + 2)%Z) = false) as Hseq.
  { unfold sequential. apply bool_decide_eq_false. lia. }
  split; [done|]. split; [done|].
  assert (r ≠ []) as Hr.
  { intros Hnil. rewrite Hnil in Hlen. unfold len in Hlen. simpl in Hlen. lia. }
  rewrite (chunks_all_nonempty r (t + 2) ltac:(lia) Hr), Hlen.
  pose proof (ceil_div_covers (len r) (t + 2) ltac:(lia)) as Hcov.
  unfold pages_per_worker. rewrite Hlen in Hcov |- *.
  remember (ceil_div ((t + 1) * (t + 1)) (t + 2)) as p eqn:Ep. clear Ep.
  assert (t < p)%Z by nia. nia.
Qed.

(** ** Order of the pages *)

Section OrderPreservation.
Context `{Collaborators}.
Implicit Types (pdf_doc : PdfDocument) (model : option Model)
  (page_range : option (list Z)).

(** Glyph extraction and inference work page by page: what they return
    for a batch is what they return for its parts, in order.  This is how
    the determinism the claim assumes enters. *)
Hypothesis get_pdfium_chars_app : ∀ pdf_doc a b flatten_pdf,
  get_pdfium_chars pdf_doc (a ++ b) flatten_pdf
  = get_pdfium_chars pdf_doc a flatten_pdf
    ++ get_pdfium_chars pdf_doc b flatten_pdf.
Hypothesis inference_app : ∀ a b (m : Model),
  inference (a ++ b) m = inference a m ++ inference b m.







End OrderPreservation.


(** ** The two entry points *)

Lemma lstrip_suffix (s : str) : ∃ k, s = k ++ lstrip s.
Proof.
  induction s as [|c s [k IH]]; [by exists []|]. simpl.
  destruct (isspace c); [|by exists []].
  exists (c :: k). simpl. by f_equal.
Qed.

Lemma lstrip_head (s : str) c : head (lstrip s) = Some c → isspace c = false.
Proof.
  induction s as [|c' s IH]; [done|]. simpl.
  destruct (isspace c') eqn:Hc'; [done|]. simpl. by intros [= <-].
Qed.

Lemma rstrip_prefix (s : str) : ∃ k, s = rstrip s ++ k.
Proof.
  destruct (lstrip_suffix (reverse s)) as [k Hk].
  exists (reverse k). unfold rstrip.
  rewrite <- reverse_app, <- Hk. by rewrite reverse_involutive.
Qed.

Lemma rstrip_last (s : str) c : last (rstrip s) = Some c → isspace c = false.
Proof.
  unfold rstrip. rewrite last_reverse. apply lstrip_head.
Qed.

Lemma strip_stripped (s : str) : stripped (strip s).
Proof.
  unfold strip. split; [|apply rstrip_last].
  intros c Hc. apply (lstrip_head s).
  destruct (rstrip_prefix (lstrip s)) as [k Hk].
  rewrite Hk. by destruct (rstrip (lstrip s)).
Qed.

Section EntryPoints.
Context `{Collaborators}.
Implicit Types (σ : heap) (pdf : source) (model : option Model)
  (page_range : option (list Z)) (workers : option Z).

(** C7. A [pdf] argument that is neither a [str] nor a [PdfDocument] makes
    both entry points raise [TypeError], with the message that names the
    two accepted types, before they have done anything: the trace is
    empty, so no document was opened and no glyph extraction, inference or
    worker was started.  A [str] or a [PdfDocument] passes [_process_pdf]
    without an exception. *)
Theorem other_source_is_type_error σ pdf sort model hyphens page_range
    flatten_pdf keep_chars workers :
  let e := TypeError "pdf must be a file path string or a PdfDocument object" in
  (accepted pdf = false →
   _process_pdf pdf flatten_pdf = ([], Err e)
   ∧ plain_text_output σ pdf sort model hyphens page_range flatten_pdf workers
     = ([], Err e)
   ∧ dictionary_output σ pdf sort model page_range flatten_pdf keep_chars
       workers
     = ([], Err e))
  ∧ (accepted pdf = true →
     ∃ t pdf_doc, _process_pdf pdf flatten_pdf = (t, Ok pdf_doc)).
Proof.
  intros e. split.
  - intros Hno. unfold plain_text_output, dictionary_output.
    destruct pdf as [v|d]; [|done]. by destruct v.
  - intros Hyes. destruct pdf as [v|d].
    + destruct v; try done. destruct flatten_pdf; by eexists _, _.
    + destruct flatten_pdf; by eexists _, _.
Qed.

(** C8. [plain_text_output] returns the strings of
    [paginated_plain_text_output] for the same document, joined with one
    newline between consecutive pages, and none of these strings starts or
    ends with white space. *)
Theorem plain_text_is_joined_stripped_pages σ pdf sort model hyphens
    page_range flatten_pdf workers t pdf_doc t' text :
  _process_pdf pdf flatten_pdf = (t, Ok pdf_doc) →
  paginated_plain_text_output σ pdf_doc sort model hyphens page_range
    flatten_pdf workers = (t', Ok text) →
  plain_text_output σ pdf sort model hyphens page_range flatten_pdf workers
  = (t ++ t', Ok (join [10%N] text))
  ∧ Forall stripped text
  ∧ ∃ pages,
      (_get_pages pdf_doc model page_range flatten_pdf workers).2 = Ok pages
      ∧ text = map (λ page, strip (merge_text σ page sort hyphens)) pages.
Proof.
  intros Hdoc Htext. unfold plain_text_output. rewrite Hdoc. simpl.
  rewrite Htext. simpl. rewrite app_nil_r. split; [done|].
  unfold paginated_plain_text_output in Htext.
  destruct (_get_pages _ _ _ _ _) as [tr [pages|e]]; simpl in Htext; [|done].
  injection Htext as _ <-. split.
  - apply Forall_forall. intros s Hs. apply list_elem_of_In in Hs.
    apply in_map_iff in Hs as (page & <- & _). apply strip_stripped.
  - by exists pages.
Qed.

(** C9. With a [str] or a [PdfDocument] and [flatten_pdf] set, each entry
    point calls [init_forms] exactly once: in [_process_pdf], on the handle
    it was given or has just opened, with nothing before it but the opening
    of the document.  Everything [_get_pages] does, the partitioning and
    every worker included, comes after, and none of it is a call of
    [init_forms]. *)
Theorem init_forms_once_before_get_pages σ pdf sort model hyphens
    page_range keep_chars workers :
  accepted pdf = true →
  ∃ opening pdf_doc,
    (opening = [] ∨ ∃ path, opening = [EOpen path])
    ∧ _process_pdf pdf true = (opening ++ [EInitForms], Ok (init_forms pdf_doc))
    ∧ let rest :=
        (_get_pages (init_forms pdf_doc) model page_range true workers).1 in
      count_init_forms rest = 0
      ∧ (plain_text_output σ pdf sort model hyphens page_range true workers).1
        = opening ++ EInitForms :: rest
      ∧ (dictionary_output σ pdf sort model page_range true keep_chars
           workers).1
        = opening ++ EInitForms :: rest
      ∧ count_init_forms (opening ++ EInitForms :: rest) = 1.
Proof.
  intros Hyes.
  assert (∃ opening pdf_doc,
            (opening = [] ∨ ∃ path, opening = [EOpen path])
            ∧ _process_pdf pdf true
              = (opening ++ [EInitForms], Ok (init_forms pdf_doc)))
    as (opening & pdf_doc & Hopening & Hdoc).
  { destruct pdf as [v|d].
    - destruct v; try done. eexists [EOpen s], _. split; [|done]. eauto.
    - exists [], d. split; [|done]. eauto. }
  exists opening, pdf_doc. split; [done|]. split; [done|]. cbv zeta.
  pose proof (_get_pages_no_init_forms (init_forms pdf_doc) model page_range
                true workers) as Hrest.
  split; [done|].
  unfold plain_text_output, dictionary_output, paginated_plain_text_output.
  rewrite Hdoc. simpl.
  destruct (_get_pages _ _ _ _ _) as [rest [pages|e]]; simpl in *.
  - destruct (assemble σ pages sort keep_chars); simpl;
      rewrite ?app_nil_r, <- !app_assoc; simpl.
    all: repeat split; try done.
    all: rewrite count_init_forms_app; destruct Hopening as [->|[path ->]];
      unfold count_init_forms in *; simpl; by rewrite Hrest.
  - rewrite <- !app_assoc. simpl. repeat split; try done.
    rewrite count_init_forms_app; destruct Hopening as [->|[path ->]];
      unfold count_init_forms in *; simpl; by rewrite Hrest.
Qed.

End EntryPoints.

(** *** On the sample collaborators *)

Lemma other_source_is_type_error_witness :
  let e := TypeError "pdf must be a file path string or a PdfDocument object" in
  let pdf := @SValue sample (VInt 3) in
  accepted pdf = false
  ∧ @plain_text_output sample ∅ pdf false None false None true (Some 4%Z)
    = ([], Err e)
  ∧ @dictionary_output sample ∅ pdf false None None true false (Some 4%Z)
    = ([], Err e)
  ∧ accepted (@SValue sample (VStr [97%N])) = true
  ∧ ∃ t pdf_doc,
      @_process_pdf sample (SValue (VStr [97%N])) true = (t, Ok pdf_doc).
Proof.
  pose proof (@other_source_is_type_error sample ∅ (SValue (VInt 3)) false
                None false None true false (Some 4%Z)) as [Hno _].
  pose proof (@other_source_is_type_error sample ∅ (SValue (VStr [97%N]))
                false None false None true false (Some 4%Z)) as [_ Hyes].
  cbv zeta in *.
  split; [reflexivity|]. split; [apply Hno; reflexivity|].
  split; [apply Hno; reflexivity|]. split; [reflexivity|].
  apply Hyes. reflexivity.
Defined.

Lemma plain_text_is_joined_stripped_pages_witness :
  let pdf := @SValue sample (VStr [97%N]) in
  let t := [EOpen [97%N]] in
  let t' := [EGetModel; EGetChars [0; 1]%Z (Some false); EInference 2] in
  let text := [[72; 105]; [72; 105]]%N in
  (@_process_pdf sample pdf false = (t, Ok 0)
   ∧ @paginated_plain_text_output sample ∅ 0 false None false
       (Some [0; 1]%Z) false None = (t', Ok text))
  ∧ (@plain_text_output sample ∅ pdf false None false (Some [0; 1]%Z) false
       None
     = (t ++ t', Ok [72; 105; 10; 72; 105]%N)
     ∧ Forall stripped text).
Proof.
  split; [by vm_compute|].
  destruct (@plain_text_is_joined_stripped_pages sample ∅
              (SValue (VStr [97%N])) false None false (Some [0; 1]%Z) false
              None [EOpen [97%N]] 0
              [EGetModel; EGetChars [0; 1]%Z (Some false); EInference 2]
              [[72; 105]; [72; 105]]%N eq_refl eq_refl) as (Hjoin & Hs & _).
  split; [exact Hjoin|exact Hs].
Defined.

Lemma init_forms_once_before_get_pages_witness :
  let pdf := @SValue sample (VStr [97%N]) in
  accepted pdf = true
  ∧ ∃ opening pdf_doc,
      (opening = [] ∨ ∃ path, opening = [EOpen path])
      ∧ @_process_pdf sample pdf true
        = (opening ++ [EInitForms], Ok (@init_forms sample pdf_doc))
      ∧ let rest :=
          (@_get_pages sample (@init_forms sample pdf_doc) None None true
             (Some 2%Z)).1 in
        count_init_forms rest = 0
        ∧ (@plain_text_output sample ∅ pdf false None false None true
             (Some 2%Z)).1
          = opening ++ EInitForms :: rest
        ∧ (@dictionary_output sample ∅ pdf false None None true false
             (Some 2%Z)).1
          = opening ++ EInitForms :: rest
        ∧ count_init_forms (opening ++ EInitForms :: rest) = 1.
Proof.
  split; [reflexivity|].
  apply (@init_forms_once_before_get_pages sample ∅ (SValue (VStr [97%N]))
           false None false None false (Some 2%Z)).
  reflexivity.
Defined.

(** ** The object store *)

Section Store.
Implicit Types (σ : heap) (l : loc) (d : dict) (k : string) (M : list loc).

Lemma getitem_dict σ l d k :
  σ !! l = Some (ODict d) →
  getitem σ (VRef l) k
  = match d !! k with Some v => Ok v | None => Err (KeyError k) end.
Proof. intros Hl. unfold getitem, as_dict. by rewrite Hl. Qed.

Lemma getitem_Some σ l d k v :
  σ !! l = Some (ODict d) → d !! k = Some v → getitem σ (VRef l) k = Ok v.
Proof. intros Hl Hk. by rewrite (getitem_dict _ _ _ _ Hl), Hk. Qed.

Lemma setitem_dict σ l d k v :
  σ !! l = Some (ODict d) →
  setitem σ (VRef l) k v = Ok (<[l := ODict (<[k := v]> d)]> σ).
Proof. intros Hl. unfold setitem, as_dict. by rewrite Hl. Qed.

Lemma delitem_Some σ l d k v :
  σ !! l = Some (ODict d) → d !! k = Some v →
  delitem σ (VRef l) k = Ok (<[l := ODict (delete k d)]> σ).
Proof. intros Hl Hk. unfold delitem, as_dict. rewrite Hl. simpl. by rewrite Hk. Qed.

Lemma iter_list σ l items :
  σ !! l = Some (OList items) → iter σ (VRef l) = Ok items.
Proof. intros Hl. unfold iter. by rewrite Hl. Qed.

(** *** The deletion loop *)

Lemma prune_keys_lookup keep ks d k :
  prune_keys keep ks d !! k
  = if bool_decide (k ∈ keep) then d !! k
    else if bool_decide (k ∈ ks) then None else d !! k.
Proof.
  unfold prune_keys. revert d.
  induction ks as [|k' ks IH]; intros d; cbn [foldl].
  - destruct (bool_decide (k ∈ keep)); [done|].
    by rewrite bool_decide_eq_false_2 by apply not_elem_of_nil.
  - rewrite IH. destruct (decide (k ∈ keep)) as [Hkeep|Hkeep].
    + rewrite !(bool_decide_eq_true_2 _ Hkeep).
      destruct (decide (k' ∈ keep)) as [Hk'|Hk'].
      * by rewrite (bool_decide_eq_true_2 _ Hk').
      * rewrite (bool_decide_eq_false_2 _ Hk').
        apply lookup_delete_ne. by intros ->.
    + rewrite !(bool_decide_eq_false_2 _ Hkeep).
      destruct (decide (k = k')) as [->|Hne].
      * rewrite (bool_decide_eq_false_2 _ Hkeep), lookup_delete_eq.
        rewrite (bool_decide_eq_true_2 (k' ∈ k' :: ks)) by left.
        by destruct (bool_decide (k' ∈ ks)).
      * assert (k ∈ k' :: ks ↔ k ∈ ks) as Hiff
          by (rewrite elem_of_cons; split; [intros [?|?]; [done|done]|by right]).
        rewrite (bool_decide_ext _ _ Hiff).
        destruct (bool_decide (k ∈ ks)); [done|].
        destruct (bool_decide (k' ∈ keep)); [done|].
        by rewrite lookup_delete_ne.
Qed.

Lemma pruned_lookup keep d k :
  pruned keep d !! k = if bool_decide (k ∈ keep) then d !! k else None.
Proof.
  unfold pruned. rewrite prune_keys_lookup.
  destruct (bool_decide (k ∈ keep)); [done|].
  destruct (decide (k ∈ (map_to_list d).*1)) as [Hk|Hk].
  - by rewrite (bool_decide_eq_true_2 _ Hk).
  - rewrite (bool_decide_eq_false_2 _ Hk).
    destruct (d !! k) as [v|] eqn:Hd; [|done]. exfalso. apply Hk.
    apply list_elem_of_fmap. exists (k, v). split; [done|].
    by apply elem_of_map_to_list.
Qed.

Lemma pruned_keys_within keep d : keys_within keep (pruned keep d).
Proof.
  intros k [v Hk]. rewrite pruned_lookup in Hk.
  destruct (decide (k ∈ keep)) as [Hin|Hin]; [done|].
  by rewrite (bool_decide_eq_false_2 _ Hin) in Hk.
Qed.

Lemma for_each_delete σ l keep ks d :
  NoDup ks →
  (∀ k, k ∈ ks → is_Some (d !! k)) →
  σ !! l = Some (ODict d) →
  for_each ks
    (λ σ k, if bool_decide (k ∈ keep) then Ok σ else delitem σ (VRef l) k) σ
  = Ok (<[l := ODict (prune_keys keep ks d)]> σ).
Proof.
  revert σ d. induction ks as [|k ks IH]; intros σ d Hnd Hks Hl; simpl.
  - by rewrite insert_id.
  - apply NoDup_cons in Hnd as [Hk Hnd].
    case_bool_decide as Hkeep; simpl.
    + apply IH; [done| |done]. intros k' Hk'. apply Hks. by right.
    + destruct (Hks k ltac:(left)) as [v Hv].
      rewrite (delitem_Some _ _ _ _ _ Hl Hv). simpl.
      rewrite (IH _ (delete k d)); [by rewrite insert_insert_eq|done| |].
      * intros k' Hk'. rewrite lookup_delete_ne by (by intros ->).
        apply Hks. by right.
      * by rewrite lookup_insert_eq.
Qed.

Lemma prune_dict σ l d keep :
  σ !! l = Some (ODict d) →
  prune σ (VRef l) keep = Ok (<[l := ODict (pruned keep d)]> σ).
Proof.
  intros Hl. unfold prune, keys. rewrite Hl. simpl.
  apply for_each_delete; [apply NoDup_fst_map_to_list| |done].
  intros k Hk. apply list_elem_of_fmap in Hk as ([k' v] & -> & Hkv).
  apply elem_of_map_to_list in Hkv. by exists v.
Qed.

(** *** Frames *)

Lemma modifies_only_refl alloc M σ : modifies_only alloc M σ σ.
Proof. intros l. by left. Qed.

Lemma modifies_only_insert alloc M σ l d d' :
  l ∈ M → σ !! l = Some (ODict d) →
  modifies_only alloc M σ (<[l := ODict d']> σ).
Proof.
  intros HM Hl l'. destruct (decide (l' = l)) as [->|Hne].
  - right. left. split; [done|]. exists d, d'. by rewrite lookup_insert_eq.
  - left. by rewrite lookup_insert_ne.
Qed.

Lemma modifies_only_trans alloc M σ1 σ2 σ3 :
  modifies_only alloc M σ1 σ2 → modifies_only alloc M σ2 σ3 →
  modifies_only alloc M σ1 σ3.
Proof.
  intros H12 H23 l.
  destruct (H12 l) as [E12|[(HM & d & d' & Hd & Hd')|(Ha & Hn & Hnd)]],
           (H23 l) as [E23|[(HM' & e & e' & He & He')|(Ha' & Hn' & Hnd')]].
  - left. congruence.
  - right. left. split; [done|]. exists e, e'. split; congruence.
  - right. right. split; [done|]. split; [congruence|done].
  - right. left. split; [done|]. exists d, d'. split; congruence.
  - right. left. split; [done|]. exists d, e'. split; congruence.
  - congruence.
  - right. right. split; [done|]. split; [done|]. intros d0. rewrite E23.
    apply Hnd.
  - exfalso. by apply (Hnd e).
  - right. right. done.
Qed.

Lemma modifies_only_weaken alloc alloc' M M' σ σ' :
  (∀ l, l ∈ M → l ∈ M') → (alloc = true → alloc' = true) →
  modifies_only alloc M σ σ' → modifies_only alloc' M' σ σ'.
Proof.
  intros HM Ha Hm l.
  destruct (Hm l) as [?|[(? & ?)|(? & ? & ?)]];
    [by left|right; left|right; right]; auto.
Qed.

(** A dictionary outside [M] is left as it is. *)
Lemma modifies_only_dict alloc M σ σ' l d :
  modifies_only alloc M σ σ' → l ∉ M → σ !! l = Some (ODict d) →
  σ' !! l = Some (ODict d).
Proof.
  intros Hm HM Hl. destruct (Hm l) as [E|[(? & _)|(_ & Hn & _)]]; congruence.
Qed.

(** Lists are left as they are. *)
Lemma modifies_only_list alloc M σ σ' l items :
  modifies_only alloc M σ σ' → σ !! l = Some (OList items) →
  σ' !! l = Some (OList items).
Proof.
  intros Hm Hl.
  destruct (Hm l) as [E|[(_ & d & d' & Hd & _)|(_ & Hn & _)]]; congruence.
Qed.

End Store.

(** ** Loops over the children of a node *)

Lemma elem_of_concat_map {T A} (f : T → list A) (ts : list T) (x : A) :
  x ∈ concat (map f ts) ↔ ∃ t, t ∈ ts ∧ x ∈ f t.
Proof.
  rewrite list_elem_of_In, in_concat. split.
  - intros (y & Hy & Hx). apply in_map_iff in Hy as (t & <- & Ht).
    exists t. by rewrite !list_elem_of_In.
  - intros (t & Ht & Hx). exists (f t). split.
    + apply in_map. by apply list_elem_of_In.
    + by apply list_elem_of_In.
Qed.

Lemma Forall2_eq_map {T} (f : T → T) (ts ts' : list T) :
  Forall2 (λ t t', t' = f t) ts ts' → ts' = map f ts.
Proof. induction 1 as [|t t' ts ts' -> _ IH]; [done|]. simpl. by f_equal. Qed.

Lemma out_R_locs {T} (locs : T → list loc) (out : T → T) :
  (∀ t, locs (out t) = locs t) →
  ∀ t t' l, t' = out t → l ∈ locs t' → l ∈ locs t.
Proof. intros Heq t t' l ->. by rewrite Heq. Qed.

Section ForEachSpec.
Context {T : Type} (root : T → value) (locs : T → list loc) (wf : T → Prop)
  (inσ : heap → T → Prop) (R : T → T → Prop) (body : heap → value → res heap)
  (alloc : bool).

Hypothesis in_frame : ∀ σ σ' M t,
  inσ σ t → modifies_only alloc M σ σ' → (∀ l, l ∈ locs t → l ∉ M) →
  inσ σ' t.
Hypothesis R_locs : ∀ t t' l, R t t' → l ∈ locs t' → l ∈ locs t.
Hypothesis body_spec : ∀ σ t,
  wf t → inσ σ t → NoDup (locs t) →
  ∃ σ' t', body σ (root t) = Ok σ' ∧ R t t' ∧ inσ σ' t'
           ∧ modifies_only alloc (locs t) σ σ'.

(** A loop whose body works on the objects of one child only, over
    children that share no dictionary: every child ends as the body
    leaves it. *)
Lemma for_each_spec ts σ :
  Forall wf ts → Forall (inσ σ) ts → NoDup (concat (map locs ts)) →
  ∃ σ' ts', for_each (map root ts) body σ = Ok σ' ∧ Forall2 R ts ts'
            ∧ Forall (inσ σ') ts'
            ∧ modifies_only alloc (concat (map locs ts)) σ σ'.
Proof.
  revert σ. induction ts as [|t ts IH]; intros σ Hwf Hin Hnd.
  - exists σ, []. repeat split; try done. apply modifies_only_refl.
  - apply Forall_cons in Hwf as [Hwf Hwfs].
    apply Forall_cons in Hin as [Hin Hins].
    simpl in Hnd. apply NoDup_app in Hnd as (Hnd & Hdisj & Hnds).
    destruct (body_spec σ t Hwf Hin Hnd) as (σ1 & t' & Hbody & HR & Hin1 & Hm1).
    assert (Forall (inσ σ1) ts) as Hins1.
    { apply Forall_forall. intros t2 Ht2.
      apply (in_frame σ σ1 (locs t)); [|done|].
      - by apply (proj1 (Forall_forall _ _) Hins).
      - intros l Hl HM. apply (Hdisj l HM).
        apply elem_of_concat_map. by exists t2. }
    destruct (IH σ1 Hwfs Hins1 Hnds) as (σ' & ts' & Hloop & HRs & Hins' & Hm').
    exists σ', (t' :: ts'). simpl. rewrite Hbody. simpl.
    split; [done|]. split; [by constructor|]. split.
    + constructor; [|done].
      apply (in_frame σ1 σ' (concat (map locs ts))); [done|done|].
      intros l Hl. apply Hdisj. by apply (R_locs t t').
    + apply (modifies_only_trans _ _ _ σ1).
      * eapply modifies_only_weaken; [| |exact Hm1]; [|done].
        intros l Hl. apply elem_of_app. by left.
      * eapply modifies_only_weaken; [| |exact Hm']; [|done].
        intros l Hl. apply elem_of_app. by right.
Qed.

End ForEachSpec.

(** ** Frames of the trees *)

Section TreeFrames.
Implicit Types (σ : heap) (M : list loc).

Lemma Forall_in_frame {T} (locs : T → list loc) (inσ : heap → T → Prop)
    alloc σ σ' M (ts : list T) :
  (∀ t, inσ σ t → (∀ l, l ∈ locs t → l ∉ M) → inσ σ' t) →
  Forall (inσ σ) ts →
  (∀ l, l ∈ concat (map locs ts) → l ∉ M) →
  modifies_only alloc M σ σ' →
  Forall (inσ σ') ts.
Proof.
  intros Hframe Hin HM _. apply Forall_forall. intros t Ht.
  apply Hframe; [by apply (proj1 (Forall_forall _ _) Hin)|].
  intros l Hl. apply HM, elem_of_concat_map. by exists t.
Qed.

Lemma char_in_frame alloc σ σ' M c :
  char_in σ c → modifies_only alloc M σ σ' → (∀ l, l ∈ char_locs c → l ∉ M) →
  char_in σ' c.
Proof.
  unfold char_in. intros Hc Hm HM.
  apply (modifies_only_dict _ _ _ _ _ _ Hm); [|done]. apply HM. by left.
Qed.

Lemma span_in_frame alloc σ σ' M s :
  span_in σ s → modifies_only alloc M σ σ' → (∀ l, l ∈ span_locs s → l ∉ M) →
  span_in σ' s.
Proof.
  intros (Hd & Hl & Hcs) Hm HM. split; [|split].
  - apply (modifies_only_dict _ _ _ _ _ _ Hm); [|done]. apply HM. by left.
  - by apply (modifies_only_list _ _ _ _ _ _ Hm).
  - apply (Forall_in_frame char_locs char_in alloc σ σ' M); try done.
    + intros c Hc HcM. by apply (char_in_frame alloc σ σ' M).
    + intros l Hin. apply HM. by right.
Qed.

Lemma line_in_frame alloc σ σ' M ln :
  line_in σ ln → modifies_only alloc M σ σ' →
  (∀ l, l ∈ line_locs ln → l ∉ M) → line_in σ' ln.
Proof.
  intros (Hd & Hl & Hcs) Hm HM. split; [|split].
  - apply (modifies_only_dict _ _ _ _ _ _ Hm); [|done]. apply HM. by left.
  - by apply (modifies_only_list _ _ _ _ _ _ Hm).
  - apply (Forall_in_frame span_locs span_in alloc σ σ' M); try done.
    + intros c Hc HcM. by apply (span_in_frame alloc σ σ' M).
    + intros l Hin. apply HM. by right.
Qed.

Lemma block_in_frame alloc σ σ' M b :
  block_in σ b → modifies_only alloc M σ σ' →
  (∀ l, l ∈ block_locs b → l ∉ M) → block_in σ' b.
Proof.
  intros (Hd & Hl & Hcs) Hm HM. split; [|split].
  - apply (modifies_only_dict _ _ _ _ _ _ Hm); [|done]. apply HM. by left.
  - by apply (modifies_only_list _ _ _ _ _ _ Hm).
  - apply (Forall_in_frame line_locs line_in alloc σ σ' M); try done.
    + intros c Hc HcM. by apply (line_in_frame alloc σ σ' M).
    + intros l Hin. apply HM. by right.
Qed.

Lemma page_in_frame alloc σ σ' M p :
  page_in σ p → modifies_only alloc M σ σ' →
  (∀ l, l ∈ page_locs p → l ∉ M) → page_in σ' p.
Proof.
  intros (Hd & Hl & Hcs) Hm HM. split; [|split].
  - apply (modifies_only_dict _ _ _ _ _ _ Hm); [|done]. apply HM. by left.
  - by apply (modifies_only_list _ _ _ _ _ _ Hm).
  - apply (Forall_in_frame block_locs block_in alloc σ σ' M); try done.
    + intros c Hc HcM. by apply (block_in_frame alloc σ σ' M).
    + intros l Hin. apply HM. by right.
Qed.

End TreeFrames.

(** ** The assembler, node by node *)

Section AssemblerSpec.
Context {collaborators : Collaborators}.
Implicit Types (σ : heap) (W H : value).

Lemma char_out_locs W H c : char_locs (char_out W H c) = char_locs c.
Proof. done. Qed.

Lemma chars_out_locs W H cs :
  concat (map char_locs (map (char_out W H) cs)) = concat (map char_locs cs).
Proof. by rewrite map_map. Qed.

Lemma span_out_locs W H keep s : span_locs (span_out W H keep s) = span_locs s.
Proof. destruct keep; [|done]. unfold span_locs. simpl. by rewrite chars_out_locs. Qed.

Lemma spans_out_locs W H keep ss :
  concat (map span_locs (map (span_out W H keep) ss))
  = concat (map span_locs ss).
Proof.
  rewrite map_map. f_equal. apply map_ext. intros s. apply span_out_locs.
Qed.

Lemma line_out_locs W H keep ln : line_locs (line_out W H keep ln) = line_locs ln.
Proof. unfold line_locs. simpl. by rewrite spans_out_locs. Qed.

Lemma lines_out_locs W H keep ls :
  concat (map line_locs (map (line_out W H keep) ls))
  = concat (map line_locs ls).
Proof.
  rewrite map_map. f_equal. apply map_ext. intros s. apply line_out_locs.
Qed.

Lemma block_out_locs W H keep b :
  block_locs (block_out W H keep b) = block_locs b.
Proof. unfold block_locs. simpl. by rewrite lines_out_locs. Qed.

Lemma blocks_out_locs W H keep bs :
  concat (map block_locs (map (block_out W H keep) bs))
  = concat (map block_locs bs).
Proof.
  rewrite map_map. f_equal. apply map_ext. intros s. apply block_out_locs.
Qed.

Lemma span_out_ref W H keep s : span_ref (span_out W H keep s) = span_ref s.
Proof. by destruct keep. Qed.

Lemma denormalized_Some W H d bbox :
  d !! "bbox" = Some bbox →
  denormalized W H d = <["bbox" := unnormalize_bbox bbox W H]> d.
Proof. intros Hb. unfold denormalized. by rewrite Hb. Qed.

Lemma cleaned_Some d text :
  d !! "text" = Some text →
  cleaned d = <["text" := handle_hyphens (postprocess_text text) true]> d.
Proof. intros Ht. unfold cleaned. by rewrite Ht. Qed.

Lemma char_body_spec W H σ c :
  char_wf c → char_in σ c → NoDup (char_locs c) →
  ∃ σ' c', char_body W H σ (char_ref c) = Ok σ' ∧ c' = char_out W H c
           ∧ char_in σ' c' ∧ modifies_only false (char_locs c) σ σ'.
Proof.
  intros [bbox Hb] Hin _. unfold char_body, char_ref.
  rewrite (getitem_Some _ _ _ _ _ Hin Hb). cbn [mbind res_bind].
  rewrite (setitem_dict _ _ _ _ _ Hin).
  eexists _, _. split; [done|]. split; [done|]. split.
  - unfold char_in, char_out. simpl.
    by rewrite (denormalized_Some _ _ _ _ Hb), lookup_insert_eq.
  - eapply modifies_only_insert; [|done]. by left.
Qed.

Lemma chars_loop_spec W H σ cs :
  Forall char_wf cs → Forall (char_in σ) cs →
  NoDup (concat (map char_locs cs)) →
  ∃ σ', for_each (map char_ref cs) (char_body W H) σ = Ok σ'
        ∧ Forall (char_in σ') (map (char_out W H) cs)
        ∧ modifies_only false (concat (map char_locs cs)) σ σ'.
Proof.
  intros Hwf Hin Hnd.
  destruct (for_each_spec char_ref char_locs char_wf char_in
              (λ c c', c' = char_out W H c) (char_body W H) false
              (char_in_frame false)
              (out_R_locs char_locs _ (char_out_locs W H))
              (char_body_spec W H) cs σ Hwf Hin Hnd)
    as (σ' & cs' & Hloop & HR & Hin' & Hm).
  apply Forall2_eq_map in HR as ->. by exists σ'.
Qed.

(** The store differs from one that holds the span only in the span's
    dictionary. *)
Lemma span_in_update σ s d' :
  span_in σ s → NoDup (span_locs s) →
  span_in (<[s_loc s := ODict d']> σ)
    (SpanT (s_loc s) d' (s_chars_loc s) (s_chars s)).
Proof.
  intros (Hd & Hl & Hcs) Hnd. apply NoDup_cons in Hnd as [Hnotin _].
  pose proof (modifies_only_insert false [s_loc s] σ _ _ d'
                ltac:(by left) Hd) as Hm.
  split; [|split]; simpl.
  - by rewrite lookup_insert_eq.
  - by apply (modifies_only_list _ _ _ _ _ _ Hm).
  - apply (Forall_in_frame char_locs char_in false σ _ [s_loc s]); try done.
    + intros c Hc HcM. by apply (char_in_frame false σ _ [s_loc s]).
    + intros l Hin ->%list_elem_of_singleton. done.
Qed.

Lemma _process_span_spec W H keep σ s :
  span_wf s → span_in σ s → NoDup (span_locs s) →
  ∃ σ' s', _process_span σ (span_ref s) W H keep = Ok σ'
           ∧ s' = span_out W H keep s ∧ span_in σ' s'
           ∧ modifies_only false (span_locs s) σ σ'.
Proof.
  intros ([bbox Hb] & [text Ht] & Hchars & Hcwf) Hin Hnd.
  pose proof Hin as (Hd & Hl & Hcs).
  set (d1 := <["bbox" := unnormalize_bbox bbox W H]> (s_dict s)).
  set (d2 := <["text" := handle_hyphens (postprocess_text text) true]> d1).
  assert (cleaned (denormalized W H (s_dict s)) = d2) as Hd2.
  { rewrite (denormalized_Some _ _ _ _ Hb). apply cleaned_Some.
    unfold d1. by rewrite lookup_insert_ne. }
  assert (d2 !! "chars" = Some (VRef (s_chars_loc s))) as Hc2
    by (unfold d2, d1; by rewrite !lookup_insert_ne).
  pose proof (span_in_update σ s d2 Hin Hnd) as Hin2.
  pose proof (modifies_only_insert false (span_locs s) σ _ _ d2
                ltac:(by left) Hd) as Hm2.
  set (σ2 := <[s_loc s := ODict d2]> σ) in *.
  unfold _process_span, span_ref.
  rewrite (getitem_Some _ _ _ _ _ Hd Hb). cbn [mbind res_bind].
  rewrite (setitem_dict _ _ _ _ _ Hd). cbn [mbind res_bind]. fold d1.
  assert (<[s_loc s := ODict d1]> σ !! s_loc s = Some (ODict d1)) as Hd1
    by apply lookup_insert_eq.
  assert (d1 !! "text" = Some text) as Ht1
    by (unfold d1; by rewrite lookup_insert_ne).
  rewrite (getitem_Some _ _ _ _ _ Hd1 Ht1). cbn [mbind res_bind].
  rewrite (setitem_dict _ _ _ _ _ Hd1). cbn [mbind res_bind].
  rewrite insert_insert_eq. fold d2. fold σ2.
  destruct Hin2 as (Hd2' & Hl2 & Hcs2). simpl in Hd2', Hl2, Hcs2.
  destruct keep; cbn [negb].
  - rewrite (getitem_Some _ _ _ _ _ Hd2' Hc2). cbn [mbind res_bind].
    rewrite (iter_list _ _ _ Hl2). cbn [mbind res_bind].
    apply NoDup_cons in Hnd as [Hnotin Hnd].
    destruct (chars_loop_spec W H σ2 (s_chars s) Hcwf Hcs2 Hnd)
      as (σ3 & Hloop & Hin3 & Hm3).
    rewrite Hloop. eexists _, _. split; [done|]. split; [done|]. split.
    + unfold span_out. rewrite Hd2. split; [|split]; simpl.
      * by apply (modifies_only_dict _ _ _ _ _ _ Hm3).
      * rewrite map_map. by apply (modifies_only_list _ _ _ _ _ _ Hm3).
      * done.
    + apply (modifies_only_trans _ _ _ σ2); [done|].
      eapply modifies_only_weaken; [| |exact Hm3]; [|done].
      intros l Hl3. by right.
  - rewrite (delitem_Some _ _ _ _ _ Hd2' Hc2). unfold σ2.
    rewrite insert_insert_eq.
    eexists _, _. split; [done|]. split; [done|]. split.
    + unfold span_out. rewrite Hd2. by apply span_in_update.
    + eapply modifies_only_insert; [|done]. by left.
Qed.

End AssemblerSpec.

Section NodeSpec.
Context {collaborators : Collaborators} {T : Type} (root : T → value)
  (locs : T → list loc) (wf : T → Prop) (inσ : heap → T → Prop) (out : T → T)
  (body : heap → value → res heap) (keep : list string) (ck : string)
  (W H : value).

Hypothesis in_frame : ∀ σ σ' M t,
  inσ σ t → modifies_only false M σ σ' → (∀ l, l ∈ locs t → l ∉ M) →
  inσ σ' t.
Hypothesis out_locs : ∀ t, locs (out t) = locs t.
Hypothesis out_root : ∀ t, root (out t) = root t.
Hypothesis body_spec : ∀ σ t,
  wf t → inσ σ t → NoDup (locs t) →
  ∃ σ' t', body σ (root t) = Ok σ' ∧ t' = out t ∧ inσ σ' t'
           ∧ modifies_only false (locs t) σ σ'.
Hypothesis ck_keep : ck ∈ keep.
Hypothesis bbox_keep : "bbox" ∈ keep.
Hypothesis ck_bbox : ck ≠ "bbox".

(** A node with its children under [ck]: the node's dictionary is pruned
    and its bbox denormalized, then every child is left as [body] leaves
    it. *)
Lemma node_body_spec σ l d kl kids :
  σ !! l = Some (ODict d) →
  is_Some (d !! "bbox") →
  d !! ck = Some (VRef kl) →
  σ !! kl = Some (OList (map root kids)) →
  Forall wf kids → Forall (inσ σ) kids →
  NoDup (l :: concat (map locs kids)) →
  ∃ σ', node_body keep ck body W H σ (VRef l) = Ok σ'
        ∧ σ' !! l = Some (ODict (denormalized W H (pruned keep d)))
        ∧ σ' !! kl = Some (OList (map root (map out kids)))
        ∧ Forall (inσ σ') (map out kids)
        ∧ modifies_only false (l :: concat (map locs kids)) σ σ'.
Proof.
  intros Hd [bbox Hb] Hck Hkl Hwf Hin Hnd.
  apply NoDup_cons in Hnd as [Hnotin Hnd].
  set (d0 := pruned keep d).
  assert (d0 !! "bbox" = Some bbox) as Hb0.
  { unfold d0. by rewrite pruned_lookup, (bool_decide_eq_true_2 _ bbox_keep). }
  assert (d0 !! ck = Some (VRef kl)) as Hck0.
  { unfold d0. by rewrite pruned_lookup, (bool_decide_eq_true_2 _ ck_keep). }
  set (d1 := <["bbox" := unnormalize_bbox bbox W H]> d0).
  assert (denormalized W H d0 = d1) as Hd1 by apply (denormalized_Some _ _ _ _ Hb0).
  assert (d1 !! ck = Some (VRef kl)) as Hck1.
  { unfold d1. rewrite lookup_insert_ne; [done|]. by intros Heq. }
  pose proof (modifies_only_insert false (l :: concat (map locs kids)) σ _ _ d1
                ltac:(by left) Hd) as Hm2.
  pose proof (modifies_only_insert false [l] σ _ _ d1 ltac:(by left) Hd) as Hm2'.
  set (σ2 := <[l := ODict d1]> σ) in *.
  assert (σ2 !! l = Some (ODict d1)) as Hl2 by apply lookup_insert_eq.
  assert (σ2 !! kl = Some (OList (map root kids))) as Hkl2
    by apply (modifies_only_list _ _ _ _ _ _ Hm2 Hkl).
  assert (Forall (inσ σ2) kids) as Hin2.
  { apply (Forall_in_frame locs inσ false σ σ2 [l]); try done.
    - intros t Ht HtM. by apply (in_frame σ σ2 [l]).
    - intros l' Hl' ->%list_elem_of_singleton. done. }
  unfold node_body.
  rewrite (prune_dict _ _ _ _ Hd). cbn [mbind res_bind]. fold d0.
  assert (<[l := ODict d0]> σ !! l = Some (ODict d0)) as Hl0
    by apply lookup_insert_eq.
  rewrite (getitem_Some _ _ _ _ _ Hl0 Hb0). cbn [mbind res_bind].
  rewrite (setitem_dict _ _ _ _ _ Hl0). cbn [mbind res_bind].
  rewrite insert_insert_eq. fold d1. fold σ2.
  rewrite (getitem_Some _ _ _ _ _ Hl2 Hck1). cbn [mbind res_bind].
  rewrite (iter_list _ _ _ Hkl2). cbn [mbind res_bind].
  destruct (for_each_spec root locs wf inσ (λ t t', t' = out t) body false
              in_frame (out_R_locs locs out out_locs) body_spec kids σ2
              Hwf Hin2 Hnd)
    as (σ3 & kids' & Hloop & HR & Hin3 & Hm3).
  apply Forall2_eq_map in HR as ->.
  exists σ3. split; [done|]. split; [|split; [|split]].
  - rewrite Hd1. by apply (modifies_only_dict _ _ _ _ _ _ Hm3).
  - rewrite map_map. rewrite (map_ext _ root) by (intros; apply out_root).
    by apply (modifies_only_list _ _ _ _ _ _ Hm3).
  - done.
  - apply (modifies_only_trans _ _ _ σ2); [done|].
    eapply modifies_only_weaken; [| |exact Hm3]; [|done].
    intros l' Hl'. by right.
Qed.

End NodeSpec.

Section AssemblerLevels.
Context {collaborators : Collaborators}.
Implicit Types (σ : heap) (W H : value).

Lemma line_body_spec W H keep σ ln :
  line_wf ln → line_in σ ln → NoDup (line_locs ln) →
  ∃ σ' ln', line_body W H keep σ (line_ref ln) = Ok σ'
            ∧ ln' = line_out W H keep ln ∧ line_in σ' ln'
            ∧ modifies_only false (line_locs ln) σ σ'.
Proof.
  intros (Hb & Hk & Hwf) (Hd & Hl & Hin) Hnd.
  destruct (node_body_spec span_ref span_locs span_wf span_in
              (span_out W H keep)
              (λ σ span, _process_span σ span W H keep)
              ["spans"; "bbox"] "spans" W H
              (span_in_frame false) (span_out_locs W H keep)
              (span_out_ref W H keep) (_process_span_spec W H keep)
              ltac:(by left) ltac:(by right; left) ltac:(done)
              σ _ _ _ _ Hd Hb Hk Hl Hwf Hin Hnd)
    as (σ' & Hrun & Hd' & Hl' & Hin' & Hm).
  exists σ', (line_out W H keep ln). split; [exact Hrun|].
  split; [done|]. split; [|done]. split; [done|]. split; [|done].
  simpl. by rewrite map_map in Hl' |- *.
Qed.

Lemma line_out_ref W H keep ln : line_ref (line_out W H keep ln) = line_ref ln.
Proof. done. Qed.

Lemma block_body_spec W H keep σ b :
  block_wf b → block_in σ b → NoDup (block_locs b) →
  ∃ σ' b', block_body W H keep σ (block_ref b) = Ok σ'
           ∧ b' = block_out W H keep b ∧ block_in σ' b'
           ∧ modifies_only false (block_locs b) σ σ'.
Proof.
  intros (Hb & Hk & Hwf) (Hd & Hl & Hin) Hnd.
  destruct (node_body_spec line_ref line_locs line_wf line_in
              (line_out W H keep) (line_body W H keep)
              ["lines"; "bbox"] "lines" W H
              (line_in_frame false) (line_out_locs W H keep)
              (line_out_ref W H keep) (line_body_spec W H keep)
              ltac:(by left) ltac:(by right; left) ltac:(done)
              σ _ _ _ _ Hd Hb Hk Hl Hwf Hin Hnd)
    as (σ' & Hrun & Hd' & Hl' & Hin' & Hm).
  exists σ', (block_out W H keep b). split; [exact Hrun|].
  split; [done|]. split; [|done]. split; [done|]. split; [|done].
  simpl. by rewrite map_map in Hl' |- *.
Qed.

Lemma block_out_ref W H keep b : block_ref (block_out W H keep b) = block_ref b.
Proof. done. Qed.

End AssemblerLevels.

Lemma concat_map_Permutation {T A} (f : T → list A) (ts ts' : list T) :
  ts ≡ₚ ts' → concat (map f ts) ≡ₚ concat (map f ts').
Proof.
  induction 1 as [|t ts ts' _ IH|t1 t2 ts|ts1 ts2 ts3 _ IH1 _ IH2]; simpl.
  - done.
  - by rewrite IH.
  - rewrite !app_assoc. f_equiv. apply Permutation_app_comm.
  - by rewrite IH1.
Qed.

Section PagesSpec.
Context {collaborators : Collaborators}.
Implicit Types (σ : heap) (p : page_t).

(** [sort_blocks] returns the blocks it is given, in some order. *)
Hypothesis sort_blocks_permutes : ∀ σ items, sort_blocks σ items ≡ₚ items.

Lemma blocks_out_refs keep p :
  map block_ref (blocks_out keep p) = map block_ref (p_blocks p).
Proof. unfold blocks_out. by rewrite map_map. Qed.


Lemma page_result_locs sort keep p p' l :
  page_result sort keep p p' → l ∈ page_locs p' → l ∈ page_locs p.
Proof.
  assert (concat (map block_locs (blocks_out keep p))
          = concat (map block_locs (p_blocks p))) as Hout
    by apply blocks_out_locs.
  destruct sort; simpl.
  - intros (sorted & blocks' & Hperm & ->). unfold page_locs. simpl.
    by rewrite (concat_map_Permutation block_locs _ _ Hperm), Hout.
  - intros ->. unfold page_locs. simpl. by rewrite Hout.
Qed.


Lemma page_body_spec sort keep σ p :
  page_wf p → page_in σ p → NoDup (page_locs p) →
  ∃ σ' p', page_body sort keep σ (page_ref p) = Ok σ'
           ∧ page_result sort keep p p' ∧ page_in σ' p'
           ∧ modifies_only sort (page_locs p) σ σ'.
Proof.
  intros ([W HW] & [Ht HH] & Hk & Hwf) (Hd & Hl & Hin) Hnd.
  apply NoDup_cons in Hnd as [Hnotin Hnd].
  unfold page_body, page_ref.
  rewrite (getitem_Some _ _ _ _ _ Hd HW). cbn [mbind res_bind].
  rewrite (getitem_Some _ _ _ _ _ Hd HH). cbn [mbind res_bind].
  rewrite (getitem_Some _ _ _ _ _ Hd Hk). cbn [mbind res_bind].
  rewrite (iter_list _ _ _ Hl). cbn [mbind res_bind].
  destruct (for_each_spec block_ref block_locs block_wf block_in
              (λ b b', b' = block_out W Ht keep b) (block_body W Ht keep)
              false (block_in_frame false)
              (out_R_locs block_locs _ (block_out_locs W Ht keep))
              (block_body_spec W Ht keep) (p_blocks p) σ Hwf Hin Hnd)
    as (σ1 & blocks' & Hloop & HR & Hin1 & Hm1).
  apply Forall2_eq_map in HR as ->. rewrite Hloop. cbn [mbind res_bind].
  assert (map (block_out W Ht keep) (p_blocks p) = blocks_out keep p) as Hbo.
  { unfold blocks_out, page_width, page_height. by rewrite HW, HH. }
  rewrite Hbo in Hin1.
  pose proof (modifies_only_dict _ _ _ _ _ _ Hm1 Hnotin Hd) as Hd1.
  pose proof (modifies_only_list _ _ _ _ _ _ Hm1 Hl) as Hl1.
  assert (modifies_only sort (page_locs p) σ σ1) as Hm1'.
  { eapply modifies_only_weaken; [| |exact Hm1]; [|done].
    intros l Hl'. by right. }
  destruct sort.
  - unfold sort_page.
    rewrite (getitem_Some _ _ _ _ _ Hd1 Hk). cbn [mbind res_bind].
    rewrite (iter_list _ _ _ Hl1). cbn [mbind res_bind].
    set (sorted := fresh (dom σ1)).
    assert (σ1 !! sorted = None) as Hfresh
      by apply not_elem_of_dom, is_fresh.
    assert (sorted ≠ p_loc p) as Hne by (intros Heq; congruence).
    set (items := sort_blocks σ1 (map block_ref (p_blocks p))).
    destruct (Permutation_map_inv block_ref (blocks_out keep p)
                (l1 := items)) as (blocks' & Hitems & Hperm).
    { unfold items. by rewrite sort_blocks_permutes, blocks_out_refs. }
    set (σ2 := <[sorted := OList items]> σ1).
    assert (σ2 !! p_loc p = Some (ODict (p_dict p))) as Hd2
      by (unfold σ2; by rewrite lookup_insert_ne).
    rewrite (setitem_dict _ _ _ _ _ Hd2).
    set (σ3 := <[p_loc p := ODict (<["blocks" := VRef sorted]> (p_dict p))]> σ2).
    assert (modifies_only true [p_loc p] σ1 σ3) as Hm3.
    { intros l. destruct (decide (l = p_loc p)) as [->|Hlp].
      - right. left. split; [by left|]. eexists _, _. split; [done|].
        unfold σ3. by rewrite lookup_insert_eq.
      - destruct (decide (l = sorted)) as [->|Hls].
        + right. right. split; [done|]. split; [done|]. intros d0.
          unfold σ3, σ2. rewrite lookup_insert_ne by done.
          by rewrite lookup_insert_eq.
        + left. unfold σ3, σ2. by rewrite !lookup_insert_ne. }
    eexists σ3, (PageT (p_loc p) _ sorted blocks').
    split; [done|]. split; [|split].
    + exists sorted, blocks'. split; [by symmetry|done].
    + split; [|split]; simpl.
      * unfold σ3. by rewrite lookup_insert_eq.
      * unfold σ3, σ2. rewrite lookup_insert_ne by done.
        by rewrite lookup_insert_eq, Hitems.
      * rewrite <- Hperm.
        apply (Forall_in_frame block_locs block_in true σ1 σ3 [p_loc p]);
          try done.
        -- intros b Hb HbM. by apply (block_in_frame true σ1 σ3 [p_loc p]).
        -- intros l Hl' ->%list_elem_of_singleton. apply Hnotin.
           unfold blocks_out in Hl'. by rewrite blocks_out_locs in Hl'.
    + apply (modifies_only_trans _ _ _ σ1); [done|].
      eapply modifies_only_weaken; [| |exact Hm3]; [|done].
      intros l ->%list_elem_of_singleton. by left.
  - eexists σ1, _. split; [done|]. split; [done|]. split; [|done].
    split; [done|]. split; [|done]. simpl. by rewrite blocks_out_refs.
Qed.

(** The loop over the pages, on pages that share no dictionary. *)
Lemma assemble_spec sort keep σ ps :
  Forall page_wf ps → Forall (page_in σ) ps →
  NoDup (concat (map page_locs ps)) →
  ∃ σ' ps', assemble σ (map page_ref ps) sort keep = Ok σ'
            ∧ Forall2 (page_result sort keep) ps ps'
            ∧ Forall (page_in σ') ps'
            ∧ modifies_only sort (concat (map page_locs ps)) σ σ'.
Proof.
  apply (for_each_spec page_ref page_locs page_wf page_in
           (page_result sort keep) (page_body sort keep) sort
           (page_in_frame sort)
           (λ p p' l, page_result_locs sort keep p p' l)
           (page_body_spec sort keep)).
Qed.

End PagesSpec.

(** ** What the assembled dictionaries hold *)

Section Fields.
Context {collaborators : Collaborators}.
Implicit Types (σ : heap) (W H : value) (d : dict) (k : string).

Lemma denormalized_lookup_ne W H d k :
  k ≠ "bbox" → denormalized W H d !! k = d !! k.
Proof.
  intros Hk. unfold denormalized. destruct (d !! "bbox"); [|done].
  by rewrite lookup_insert_ne.
Qed.

Lemma denormalized_lookup_bbox W H d :
  denormalized W H d !! "bbox"
  = (λ bbox, unnormalize_bbox bbox W H) <$> d !! "bbox".
Proof.
  unfold denormalized. destruct (d !! "bbox") as [bbox|] eqn:Hb; simpl.
  - by rewrite lookup_insert_eq.
  - done.
Qed.

Lemma cleaned_lookup_ne d k : k ≠ "text" → cleaned d !! k = d !! k.
Proof.
  intros Hk. unfold cleaned. destruct (d !! "text"); [|done].
  by rewrite lookup_insert_ne.
Qed.

Lemma cleaned_lookup_text d :
  cleaned d !! "text"
  = (λ text, handle_hyphens (postprocess_text text) true) <$> d !! "text".
Proof.
  unfold cleaned. destruct (d !! "text") as [text|] eqn:Ht; simpl.
  - by rewrite lookup_insert_eq.
  - done.
Qed.

(** A span keeps every field it has, "chars" apart when the chars are
    dropped: nothing but "bbox" and "text" is rewritten. *)
Lemma span_out_lookup W H keep s k :
  s_dict (span_out W H keep s) !! k
  = if decide (k = "bbox") then
      (λ bbox, unnormalize_bbox bbox W H) <$> s_dict s !! "bbox"
    else if decide (k = "text") then
      (λ text, handle_hyphens (postprocess_text text) true)
        <$> s_dict s !! "text"
    else if decide (k = "chars") then
      (if keep then s_dict s !! "chars" else None)
    else s_dict s !! k.
Proof.
  assert (cleaned (denormalized W H (s_dict s)) !! k
          = if decide (k = "bbox") then
              (λ bbox, unnormalize_bbox bbox W H) <$> s_dict s !! "bbox"
            else if decide (k = "text") then
              (λ text, handle_hyphens (postprocess_text text) true)
                <$> s_dict s !! "text"
            else s_dict s !! k) as Hcd.
  { destruct (decide (k = "bbox")) as [->|Hb].
    - by rewrite cleaned_lookup_ne, denormalized_lookup_bbox.
    - destruct (decide (k = "text")) as [->|Ht].
      + by rewrite cleaned_lookup_text, denormalized_lookup_ne.
      + by rewrite cleaned_lookup_ne, denormalized_lookup_ne. }
  destruct keep; simpl.
  - rewrite Hcd. repeat case_decide; by subst.
  - destruct (decide (k = "chars")) as [->|Hc].
    + by rewrite lookup_delete_eq.
    + rewrite lookup_delete_ne by done. rewrite Hcd.
      repeat case_decide; by subst.
Qed.


(** Blocks and lines keep the two fields of [keep], the bbox
    denormalized. *)
Lemma node_out_lookup W H keep d k :
  denormalized W H (pruned keep d) !! k
  = if decide (k = "bbox") then
      (λ bbox, unnormalize_bbox bbox W H) <$> pruned keep d !! "bbox"
    else pruned keep d !! k.
Proof.
  case_decide as Hk.
  - subst. apply denormalized_lookup_bbox.
  - by apply denormalized_lookup_ne.
Qed.

Lemma node_out_keys_within W H keep d :
  keys_within keep (denormalized W H (pruned keep d)).
Proof.
  intros k [v Hv]. rewrite node_out_lookup in Hv.
  apply (pruned_keys_within keep d). case_decide as Hk.
  - subst. destruct (pruned keep d !! "bbox"); [by eexists|done].
  - by eexists.
Qed.

Lemma blocks_out_pruned W H keep bs :
  Forall (λ b, keys_within ["lines"; "bbox"] (b_dict b)
               ∧ Forall (λ l, keys_within ["spans"; "bbox"] (l_dict l))
                   (b_lines b))
    (map (block_out W H keep) bs).
Proof.
  apply Forall_forall. intros b' Hb'.
  apply list_elem_of_fmap in Hb' as (b & -> & _). split; simpl.
  - apply node_out_keys_within.
  - apply Forall_forall. intros l' Hl'.
    apply list_elem_of_fmap in Hl' as (l & -> & _). simpl.
    apply node_out_keys_within.
Qed.

Lemma page_result_pruned sort keep p p' :
  page_result sort keep p p' → page_pruned p'.
Proof.
  unfold page_pruned. destruct sort; simpl.
  - intros (sorted & blocks' & Hperm & ->). simpl. rewrite Hperm.
    apply blocks_out_pruned.
  - intros ->. apply blocks_out_pruned.
Qed.

(** *** Assembled trees can be assembled again when the chars were kept *)

Lemma pruned_lookup_keep keep d k :
  k ∈ keep → pruned keep d !! k = d !! k.
Proof. intros Hk. by rewrite pruned_lookup, (bool_decide_eq_true_2 _ Hk). Qed.







(** Whatever order the blocks are left in, the store holds every
    assembled block. *)
Lemma page_result_blocks_in sort keep σ p p' :
  page_result sort keep p p' → page_in σ p' →
  Forall (block_in σ) (blocks_out keep p).
Proof.
  intros Hres (_ & _ & Hin). destruct sort; simpl in Hres.
  - destruct Hres as (sorted & blocks' & Hperm & ->). simpl in Hin.
    by rewrite <- Hperm.
  - by subst.
Qed.

End Fields.

(** ** Spans *)

Section Spans.
Context {collaborators : Collaborators}.
Implicit Types (σ : heap) (W H : value) (d : dict) (k : string).

Lemma as_dict_inv σ o l d :
  as_dict σ o = Ok (l, d) → o = VRef l ∧ σ !! l = Some (ODict d).
Proof.
  unfold as_dict. destruct o as [| | | | | |l']; try done.
  destruct (σ !! l') as [[d'|]|] eqn:Hl; try done. by intros [= -> ->].
Qed.

Lemma getitem_inv σ o k v :
  getitem σ o k = Ok v →
  ∃ l d, o = VRef l ∧ σ !! l = Some (ODict d) ∧ d !! k = Some v.
Proof.
  unfold getitem. destruct (as_dict σ o) as [[l d]|] eqn:Hd; [|done].
  apply as_dict_inv in Hd as [-> Hl]. simpl.
  destruct (d !! k) eqn:Hk; [|done]. intros [= ->]. by exists l, d.
Qed.

Lemma delitem_inv σ o k σ' :
  delitem σ o k = Ok σ' →
  ∃ l d, o = VRef l ∧ σ !! l = Some (ODict d)
         ∧ σ' = <[l := ODict (delete k d)]> σ.
Proof.
  unfold delitem. destruct (as_dict σ o) as [[l d]|] eqn:Hd; [|done].
  apply as_dict_inv in Hd as [-> Hl]. simpl.
  destruct (d !! k) eqn:Hk; [|done]. intros [= <-]. by exists l, d.
Qed.

(** Whatever the span, if [_process_span] returns with [keep_chars]
    false, the span is a dictionary without "chars". *)
Lemma _process_span_drops_chars σ span W H σ' :
  _process_span σ span W H false = Ok σ' →
  ∃ l d, span = VRef l ∧ σ' !! l = Some (ODict d) ∧ d !! "chars" = None.
Proof.
  unfold _process_span. intros Hrun.
  destruct (getitem σ span "bbox") as [bbox|] eqn:Hb; [|done].
  apply getitem_inv in Hb as (l & d & -> & Hl & Hb).
  cbn [mbind res_bind] in Hrun.
  rewrite (setitem_dict _ _ _ _ _ Hl) in Hrun. cbn [mbind res_bind] in Hrun.
  destruct (getitem _ (VRef l) "text") as [text|] eqn:Ht; [|done].
  cbn [mbind res_bind] in Hrun.
  rewrite (setitem_dict _ _ (<["bbox" := unnormalize_bbox bbox W H]> d))
    in Hrun by apply lookup_insert_eq.
  cbn [mbind res_bind negb] in Hrun.
  apply delitem_inv in Hrun as (l' & d' & [= <-] & _ & ->).
  exists l, (delete "chars" d'). split; [done|].
  by rewrite lookup_insert_eq, lookup_delete_eq.
Qed.

(** C6. [_process_span] on a span of the data model (a dictionary with
    "bbox", "text" and "chars", the chars a list of dictionaries with a
    "bbox", no dictionary occurring twice): with [keep_chars] false it
    returns and the span has no "chars" field; with [keep_chars] true it
    returns, the span still has its list of chars, the list holds the same
    chars, and the bbox of every char is [unnormalize_bbox] of the bbox it
    had, with the width and height passed in, applied once.  Without any
    assumption on the span: whenever the call returns with [keep_chars]
    false, the span has no "chars" field. *)
Theorem _process_span_chars W H σ s :
  span_wf s → span_in σ s → NoDup (span_locs s) →
  (∀ σ0 span σ',
     _process_span σ0 span W H false = Ok σ' →
     ∃ l d, span = VRef l ∧ σ' !! l = Some (ODict d) ∧ d !! "chars" = None)
  ∧ (∃ σ' d,
       _process_span σ (span_ref s) W H false = Ok σ'
       ∧ σ' !! s_loc s = Some (ODict d) ∧ d !! "chars" = None)
  ∧ (∃ σ' d,
       _process_span σ (span_ref s) W H true = Ok σ'
       ∧ σ' !! s_loc s = Some (ODict d)
       ∧ d !! "chars" = Some (VRef (s_chars_loc s))
       ∧ σ' !! s_chars_loc s = Some (OList (map char_ref (s_chars s)))
       ∧ Forall (λ c, ∃ bbox,
                   c_dict c !! "bbox" = Some bbox
                   ∧ σ' !! c_loc c
                     = Some (ODict (<["bbox" := unnormalize_bbox bbox W H]>
                                      (c_dict c))))
           (s_chars s)
       ∧ modifies_only false (span_locs s) σ σ').
Proof.
  intros Hwf Hin Hnd.
  split; [intros σ0 span σ'; apply _process_span_drops_chars|]. split.
  - destruct (_process_span_spec W H false σ s Hwf Hin Hnd)
      as (σ' & s' & Hrun & -> & (Hd & _) & _).
    exists σ', (s_dict (span_out W H false s)).
    split; [done|]. split; [exact Hd|].
    by rewrite span_out_lookup.
  - destruct (_process_span_spec W H true σ s Hwf Hin Hnd)
      as (σ' & s' & Hrun & -> & (Hd & Hl & Hcs) & Hm).
    exists σ', (s_dict (span_out W H true s)).
    split; [done|]. split; [exact Hd|].
    destruct Hwf as (_ & _ & Hk & Hcwf).
    split; [by rewrite span_out_lookup|]. simpl in Hl, Hcs.
    split; [by rewrite map_map in Hl|]. split; [|done].
    apply Forall_forall. intros c Hc.
    destruct (proj1 (Forall_forall _ _) Hcwf c Hc) as [bbox Hb].
    exists bbox. split; [done|].
    pose proof (proj1 (Forall_forall _ _) Hcs (char_out W H c)
                  ltac:(apply list_elem_of_fmap; by exists c)) as Hin'.
    unfold char_in in Hin'. simpl in Hin'.
    by rewrite (denormalized_Some _ _ _ _ Hb) in Hin'.
Qed.

End Spans.

(** ** dictionary_output *)

Section Dictionary.
Context {collaborators : Collaborators}.
Implicit Types (σ : heap) (pdf : source) (model : option Model)
  (page_range : option (list Z)) (workers : option Z) (p : page_t).

(** [sort_blocks] returns the blocks it is given, in some order. *)
Hypothesis sort_blocks_permutes : ∀ σ items, sort_blocks σ items ≡ₚ items.

Lemma dictionary_output_eq σ pdf sort model page_range flatten_pdf keep_chars
    workers t pdf_doc t' pages :
  _process_pdf pdf flatten_pdf = (t, Ok pdf_doc) →
  _get_pages pdf_doc model page_range flatten_pdf workers = (t', Ok pages) →
  dictionary_output σ pdf sort model page_range flatten_pdf keep_chars workers
  = (t ++ t',
     match assemble σ pages sort keep_chars with
     | Ok σ' => Ok (pages, σ')
     | Err e => Err e
     end).
Proof.
  intros Hdoc Hpages. unfold dictionary_output. rewrite Hdoc. simpl.
  rewrite Hpages. simpl.
  destruct (assemble σ pages sort keep_chars); simpl; by rewrite !app_nil_r.
Qed.




Lemma page_results_blocks_in sort keep σ ps ps' :
  Forall2 (page_result sort keep) ps ps' → Forall (page_in σ) ps' →
  Forall (λ p, Forall (block_in σ) (blocks_out keep p)) ps.
Proof.
  induction 1 as [|p p' ps ps' Hres _ IH]; [done|].
  intros [Hp Hps]%Forall_cons.
  constructor; [by apply (page_result_blocks_in sort keep σ p p')|by apply IH].
Qed.



(** Twice assembled, a bbox is denormalized twice. *)
Lemma twice_denormalized W H keep d bbox :
  "bbox" ∈ keep → d !! "bbox" = Some bbox →
  denormalized W H (pruned keep (denormalized W H (pruned keep d))) !! "bbox"
  = Some (unnormalize_bbox (unnormalize_bbox bbox W H) W H).
Proof.
  intros Hk Hb.
  by rewrite denormalized_lookup_bbox, (pruned_lookup_keep _ _ _ Hk),
       denormalized_lookup_bbox, (pruned_lookup_keep _ _ _ Hk), Hb.
Qed.

End Dictionary.

Section DictionaryClaims.
Context {collaborators : Collaborators}.
Implicit Types (σ : heap) (pdf : source) (model : option Model)
  (page_range : option (list Z)) (workers : option Z) (p : page_t).

(** [sort_blocks] returns the blocks it is given, in some order. *)
Hypothesis sort_blocks_permutes : ∀ σ items, sort_blocks σ items ≡ₚ items.

(** C5, as the code has it.  On pages of the data model that share no
    dictionary, [dictionary_output] returns the pages [_get_pages] gave it
    and leaves every page as [page_result] says: the page dictionary as it
    was (with [sort], "blocks" holds a new list of the same blocks); every
    block with the fields "lines" and "bbox" only, every line with "spans"
    and "bbox" only ([page_pruned]); every span with all the fields it had
    ([span_out]: "bbox" and "text" rewritten, "chars" deleted unless
    [keep_chars]); every kept char with all the fields it had ([char_out]:
    "bbox" rewritten).  Every bbox of the tree is [unnormalize_bbox] of the
    bbox it had, with the width and height of its page, applied once.
    Nothing else in the store changes and no dictionary is created. *)
Theorem dictionary_output_tree σ pdf sort model page_range flatten_pdf
    keep_chars workers t pdf_doc t' ps :
  _process_pdf pdf flatten_pdf = (t, Ok pdf_doc) →
  _get_pages pdf_doc model page_range flatten_pdf workers
  = (t', Ok (map page_ref ps)) →
  Forall page_wf ps → Forall (page_in σ) ps →
  NoDup (concat (map page_locs ps)) →
  ∃ σ' ps',
    dictionary_output σ pdf sort model page_range flatten_pdf keep_chars
      workers
    = (t ++ t', Ok (map page_ref ps, σ'))
    ∧ Forall2 (page_result sort keep_chars) ps ps'
    ∧ Forall (page_in σ') ps'
    ∧ Forall page_pruned ps'
    ∧ Forall (λ p, Forall (block_in σ') (blocks_out keep_chars p)) ps
    ∧ modifies_only sort (concat (map page_locs ps)) σ σ'.
Proof.
  intros Hdoc Hpages Hwf Hin Hnd.
  destruct (assemble_spec sort_blocks_permutes sort keep_chars σ ps Hwf Hin Hnd)
    as (σ' & ps' & Hrun & Hres & Hin' & Hm).
  exists σ', ps'.
  rewrite (dictionary_output_eq _ _ _ _ _ _ _ _ _ _ _ _ Hdoc Hpages), Hrun.
  split; [done|]. split; [done|]. split; [done|]. split; [|split; [|done]].
  - clear -Hres. induction Hres as [|p p' ps ps' Hp _ IH]; [done|].
    constructor; [by apply (page_result_pruned sort keep_chars p)|done].
  - by apply (page_results_blocks_in sort keep_chars σ' ps ps').
Qed.


End DictionaryClaims.

(** *** On the sample store *)

Lemma sample_run_kept :
  @dictionary_output sample sample_store (SValue (VStr [97%N])) false None
    (Some [0%Z]) false true None
  = ([EOpen [97%N]; EGetModel; EGetChars [0%Z] (Some false); EInference 1],
     Ok ([VRef 1%positive], sample_store_kept)).
Proof. by vm_compute. Qed.


Lemma sample_page_wf : Forall page_wf [sample_page].
Proof. sample_tree. Qed.

Lemma sample_page_in : Forall (page_in sample_store) [sample_page].
Proof. sample_tree. Qed.

Lemma sample_span_wf : span_wf sample_span.
Proof. sample_tree. Qed.

Lemma sample_span_in : span_in sample_store sample_span.
Proof. sample_tree. Qed.

Lemma sample_span_NoDup : NoDup (span_locs sample_span).
Proof. apply (bool_decide_unpack _). by vm_compute. Qed.

Lemma sample_page_NoDup : NoDup (concat (map page_locs [sample_page])).
Proof. apply (bool_decide_unpack _). by vm_compute. Qed.

(** C5 fails as stated: with [keep_chars] true the char of the sample
    comes back with its "char" field, a glyph field outside bbox, lines,
    spans, chars and text. *)
Lemma glyph_field_survives :
  (@dictionary_output sample sample_store (SValue (VStr [97%N])) false None
     (Some [0%Z]) false true None).2
  = Ok ([VRef 1%positive], sample_store_kept)
  ∧ ∃ d, sample_store_kept !! 17%positive = Some (ODict d)
         ∧ d !! "char" = Some (VStr [72%N])
         ∧ ¬ keys_within ["bbox"; "lines"; "spans"; "chars"; "text"] d.
Proof.
  split; [by rewrite sample_run_kept|].
  exists (<["bbox" := sample_bbox_px]> (<["char" := VStr [72%N]]> ∅)).
  split; [by vm_compute|]. split; [by vm_compute|].
  intros Hk. specialize (Hk "char" ltac:(by eexists)).
  repeat (apply elem_of_cons in Hk as [Hk|Hk]; [discriminate|]).
  by apply elem_of_nil in Hk.
Qed.


Lemma _process_span_chars_witness :
  let W := VFloat 640 in
  let H := VFloat 480 in
  (span_wf sample_span ∧ span_in sample_store sample_span
   ∧ NoDup (span_locs sample_span))
  ∧ (∃ σ' d,
       @_process_span sample sample_store (span_ref sample_span) W H false
       = Ok σ'
       ∧ σ' !! 15%positive = Some (ODict d) ∧ d !! "chars" = None)
  ∧ (∃ σ' d,
       @_process_span sample sample_store (span_ref sample_span) W H true
       = Ok σ'
       ∧ σ' !! 15%positive = Some (ODict d)
       ∧ d !! "chars" = Some (VRef 16%positive)
       ∧ σ' !! 16%positive = Some (OList [VRef 17%positive])
       ∧ σ' !! 17%positive
         = Some (ODict (<["bbox" := sample_bbox_px]> (c_dict sample_char)))).
Proof.
  intros W H.
  split; [exact (conj sample_span_wf (conj sample_span_in sample_span_NoDup))|].
  destruct (@_process_span_chars sample W H sample_store sample_span
              sample_span_wf sample_span_in sample_span_NoDup)
    as (_ & Hdrop & σ' & d & Hrun & Hd & Hc & Hl & Hcs & _).
  split; [exact Hdrop|]. exists σ', d.
  split; [exact Hrun|]. split; [exact Hd|]. split; [exact Hc|].
  split; [exact Hl|].
  apply Forall_cons in Hcs as [(bbox & Hb & Hchar) _].
  injection Hb as <-. exact Hchar.
Defined.

Lemma dictionary_output_tree_witness :
  let pdf := @SValue sample (VStr [97%N]) in
  let t := [EOpen [97%N]] in
  let t' := [EGetModel; EGetChars [0%Z] (Some false); EInference 1] in
  (@_process_pdf sample pdf false = (t, Ok 0)
   ∧ @_get_pages sample 0 None (Some [0%Z]) false None
     = (t', Ok (map page_ref [sample_page]))
   ∧ Forall page_wf [sample_page]
   ∧ Forall (page_in sample_store) [sample_page]
   ∧ NoDup (concat (map page_locs [sample_page])))
  ∧ ∃ σ' ps',
      @dictionary_output sample sample_store pdf true None (Some [0%Z]) false
        false None
      = (t ++ t', Ok (map page_ref [sample_page], σ'))
      ∧ Forall2 (@page_result sample true false) [sample_page] ps'
      ∧ Forall (page_in σ') ps'
      ∧ Forall page_pruned ps'
      ∧ Forall (λ p, Forall (block_in σ') (@blocks_out sample false p))
          [sample_page]
      ∧ modifies_only true (concat (map page_locs [sample_page]))
          sample_store σ'.
Proof.
  intros pdf t t'.
  split.
  { split; [by vm_compute|]. split; [by vm_compute|].
    exact (conj sample_page_wf (conj sample_page_in sample_page_NoDup)). }
  apply (@dictionary_output_tree sample (λ _ _, Permutation_refl _)
           sample_store pdf true None (Some [0%Z]) false false None t 0 t'
           [sample_page]).
  - by vm_compute.
  - by vm_compute.
  - exact sample_page_wf.
  - exact sample_page_in.
  - exact sample_page_NoDup.
Defined.


(** On the sample, the second run leaves the bbox of the block
    denormalized twice. *)
Lemma sample_block_denormalized_twice :
  ∃ σ2 d,
    @assemble sample sample_store_kept [VRef 1%positive] false true = Ok σ2
    ∧ σ2 !! 11%positive = Some (ODict d)
    ∧ d !! "bbox"
      = Some (VTuple [VFloat 102400; VFloat 115200; VFloat 307200;
                      VFloat 230400]).
Proof.
  destruct (@assemble sample sample_store_kept [VRef 1%positive] false true)
    as [σ2|e] eqn:Hrun; vm_compute in Hrun; [|discriminate].
  injection Hrun as <-. eexists _, _. split; [done|]. by vm_compute.
Qed.

(** * Further properties of the pipeline *)

Section PipelineExtras.
Context `{Collaborators}.
Implicit Types (σ : heap) (pdf : source) (pdf_doc : PdfDocument)
  (model : option Model) (page_range : option (list Z)) (workers : option Z).



(** X2. With the threshold at zero, any [workers] makes [_get_pages]
    raise [ZeroDivisionError] once the defaults are filled in, before any
    extraction; both entry points pass the exception on, after whatever
    [_process_pdf] has done.  Without [workers] the threshold is not read
    and the range is processed sequentially. *)
Theorem zero_threshold_raises σ pdf t pdf_doc sort model hyphens page_range
    flatten_pdf keep_chars n :
  WORKER_PAGE_THRESHOLD = 0%Z →
  _process_pdf pdf flatten_pdf = (t, Ok pdf_doc) →
  _get_pages pdf_doc model page_range flatten_pdf (Some n)
  = (prelude model page_range, Err ZeroDivisionError)
  ∧ plain_text_output σ pdf sort model hyphens page_range flatten_pdf (Some n)
    = (t ++ prelude model page_range, Err ZeroDivisionError)
  ∧ dictionary_output σ pdf sort model page_range flatten_pdf keep_chars
      (Some n)
    = (t ++ prelude model page_range, Err ZeroDivisionError)
  ∧ _get_pages pdf_doc model page_range flatten_pdf None
    = (prelude model page_range
         ++ extraction_events pdf_doc (Some flatten_pdf)
              (the_range pdf_doc page_range),
       Ok (infer_range pdf_doc (the_model model) (Some flatten_pdf)
             (the_range pdf_doc page_range))).
Proof.
  intros HT Hdoc.
  assert (_get_pages pdf_doc model page_range flatten_pdf (Some n)
          = (prelude model page_range, Err ZeroDivisionError)) as Hpages.
  { rewrite _get_pages_unfold. cbv zeta. unfold cap_workers, floordiv.
    by rewrite decide_True. }
  split; [done|].
  unfold plain_text_output, dictionary_output, paginated_plain_text_output.
  rewrite Hdoc. simpl. rewrite Hpages. simpl.
  split; [done|]. split; [done|].
  by rewrite _get_pages_unfold.
Qed.

(** X3. On the parallel path there are as many chunks as workers, chunk
    [i] holds [min(pages_per_worker, max(0, n - i * pages_per_worker))]
    pages, and [pages_per_worker] is at least the threshold and at most
    the number of pages: every worker whose chunk is full gets at least
    [WORKER_PAGE_THRESHOLD] pages, the first worker among them. *)
Theorem chunk_sizes (r : list Z) workers w :
  let chunks := page_range_chunks r w in
  let ppw := pages_per_worker r w in
  cap_workers r workers = Ok (Some w) →
  sequential (Some w) = false →
  length chunks = Z.to_nat w
  ∧ (WORKER_PAGE_THRESHOLD ≤ ppw ≤ len r)%Z
  ∧ (∀ (i : nat) chunk, chunks !! i = Some chunk →
       len chunk = Z.min ppw (Z.max 0 (len r - Z.of_nat i * ppw)))
  ∧ ∃ first, chunks !! 0 = Some first ∧ len first = ppw.
Proof.
  intros chunks ppw Hcap Hseq.
  destruct (cap_workers_parallel _ _ _ Hcap Hseq) as (Hw & HT & HwT & _).
  assert (0 ≤ len r)%Z as Hn by (unfold len; lia).
  pose proof (ceil_div_covers (len r) w ltac:(lia)) as Hcov.
  pose proof (ceil_div_tight (len r) w ltac:(lia)) as Htight.
  fold (pages_per_worker r w) in Hcov, Htight. fold ppw in Hcov, Htight.
  assert (WORKER_PAGE_THRESHOLD ≤ ppw ≤ len r)%Z as Hppw by nia.
  assert (∀ (i : nat) chunk, chunks !! i = Some chunk →
            len chunk = Z.min ppw (Z.max 0 (len r - Z.of_nat i * ppw)))
    as Hsize.
  { intros i chunk Hi. unfold chunks, page_range_chunks in Hi.
    rewrite list_lookup_fmap in Hi. unfold range in Hi.
    destruct (seqZ 0 w !! i) as [j|] eqn:Hj; [|done].
    apply lookup_seqZ in Hj as [-> Hlt]. simpl in Hi. injection Hi as <-.
    fold ppw. unfold len at 1.
    rewrite (length_slice_nonneg r ((0 + Z.of_nat i) * ppw)
               ((0 + Z.of_nat i + 1) * ppw)) by nia.
    replace ((0 + Z.of_nat i + 1) * ppw - (0 + Z.of_nat i) * ppw)%Z with ppw
      by lia.
    by replace ((0 + Z.of_nat i) * ppw)%Z with (Z.of_nat i * ppw)%Z by lia. }
  split; [|split; [done|split; [done|]]].
  - unfold chunks, page_range_chunks, range.
    by rewrite length_map, length_seqZ.
  - assert (∃ first, chunks !! 0 = Some first) as [first Hfirst].
    { apply lookup_lt_is_Some. unfold chunks, page_range_chunks, range.
      rewrite length_map, length_seqZ. lia. }
    exists first. split; [done|]. rewrite (Hsize 0 first Hfirst). lia.
Qed.

(** X4. On the parallel path [flatten_pdf] reaches nothing: [_get_pages]
    gives the same trace and the same pages whatever the flag, every
    worker calling the glyph extractor without it; on the sequential path
    the extractor is called with the flag. *)
Theorem parallel_path_ignores_flatten_pdf pdf_doc model page_range workers w
    flatten_pdf flatten_pdf' :
  let r := the_range pdf_doc page_range in
  cap_workers r workers = Ok (Some w) →
  sequential (Some w) = false →
  _get_pages pdf_doc model page_range flatten_pdf workers
  = _get_pages pdf_doc model page_range flatten_pdf' workers
  ∧ (_get_pages pdf_doc model page_range flatten_pdf workers).1
    = prelude model page_range
      ++ imap (λ i c, EWorker i c
                        [EGetChars c None;
                         EInference
                           (length (get_pdfium_chars pdf_doc c None))])
           (page_range_chunks r w)
  ∧ (_get_pages pdf_doc model page_range flatten_pdf (Some 1%Z)).1
    = prelude model page_range
      ++ [EGetChars r (Some flatten_pdf);
          EInference
            (length (get_pdfium_chars pdf_doc r (Some flatten_pdf)))].
Proof.
  intros r Hcap Hseq.
  destruct (cap_workers_parallel _ _ _ Hcap Hseq) as (_ & HT & _).
  rewrite !_get_pages_unfold. cbv zeta. fold r. rewrite Hcap, Hseq.
  split; [done|]. split; [done|].
  unfold cap_workers, floordiv. case_decide; [lia|]. simpl.
  by rewrite bool_decide_eq_true_2 by lia.
Qed.

(** X5. Without [flatten_pdf] neither entry point ever calls
    [init_forms], whatever it is given and whichever path is taken. *)
Theorem no_flatten_no_init_forms σ pdf sort model hyphens page_range
    keep_chars workers :
  count_init_forms
    (plain_text_output σ pdf sort model hyphens page_range false workers).1
  = 0
  ∧ count_init_forms
      (dictionary_output σ pdf sort model page_range false keep_chars
         workers).1
    = 0.
Proof.
  assert (∀ pdf_doc,
            count_init_forms
              (_get_pages pdf_doc model page_range false workers).1 = 0)
    as Hrest by (intros; apply _get_pages_no_init_forms).
  unfold plain_text_output, dictionary_output, paginated_plain_text_output.
  destruct pdf as [v|d]; [destruct v|]; simpl; try done.
  all: match goal with
       | |- context [_get_pages ?d _ _ _ _] =>
           specialize (Hrest d);
           destruct (_get_pages d model page_range false workers)
             as [rest [pages|e]]
       end; simpl in *.
  all: try (destruct (assemble σ pages sort keep_chars)); simpl;
    rewrite ?app_nil_r; unfold count_init_forms in *; simpl; by rewrite ?Hrest.
Qed.

End PipelineExtras.

(** ** The text of the pages *)

Lemma lstrip_space (s : str) : ∃ a, s = a ++ lstrip s ∧ all_space a.
Proof.
  induction s as [|c s (a & IH & Ha)];
    [exists []; split; [done|constructor]|]. simpl.
  destruct (isspace c) eqn:Hc; [|exists []; split; [done|constructor]].
  exists (c :: a). split; [simpl; by f_equal|by apply Forall_cons_2].
Qed.

Lemma rstrip_space (s : str) : ∃ b, s = rstrip s ++ b ∧ all_space b.
Proof.
  destruct (lstrip_space (reverse s)) as (a & Hs & Ha).
  exists (reverse a). split.
  - unfold rstrip. rewrite <- reverse_app, <- Hs. by rewrite reverse_involutive.
  - unfold all_space. by rewrite Forall_reverse.
Qed.

Lemma strip_ends (s : str) :
  ∃ a b, s = a ++ strip s ++ b ∧ all_space a ∧ all_space b.
Proof.
  destruct (lstrip_space s) as (a & Hs & Ha).
  destruct (rstrip_space (lstrip s)) as (b & Hl & Hb).
  exists a, b. unfold strip. by rewrite <- Hl.
Qed.

Lemma newlines_app (a b : str) : newlines (a ++ b) = newlines a + newlines b.
Proof. apply count_occ_app. Qed.

Lemma newlines_join (text : list str) :
  newlines (join [10%N] text)
  = pred (length text) + list_sum (map newlines text).
Proof.
  induction text as [|p [|q text] IH]; [done|simpl; lia|].
  change (join [10%N] (p :: q :: text))
    with (p ++ [10%N] ++ join [10%N] (q :: text)).
  rewrite !newlines_app, IH. simpl. lia.
Qed.

Lemma length_join (text : list str) :
  length (join [10%N] text)
  = pred (length text) + list_sum (map length text).
Proof.
  induction text as [|p [|q text] IH]; [done|simpl; lia|].
  change (join [10%N] (p :: q :: text))
    with (p ++ [10%N] ++ join [10%N] (q :: text)).
  rewrite !length_app, IH. simpl. lia.
Qed.

Section TextExtras.
Context `{Collaborators}.
Implicit Types (σ : heap) (pdf : source) (pdf_doc : PdfDocument)
  (model : option Model) (page_range : option (list Z)) (workers : option Z).

(** X6. [paginated_plain_text_output] returns one string per page of
    [_get_pages], in order, and each is the text [merge_text] gives for the
    page with nothing but white space taken off its two ends. *)
Theorem paginated_text_trims_ends_only σ pdf_doc sort model hyphens page_range
    flatten_pdf workers t text :
  paginated_plain_text_output σ pdf_doc sort model hyphens page_range
    flatten_pdf workers = (t, Ok text) →
  ∃ pages,
    _get_pages pdf_doc model page_range flatten_pdf workers = (t, Ok pages)
    ∧ Forall2 (λ page s,
                 ∃ a b, merge_text σ page sort hyphens = a ++ s ++ b
                        ∧ all_space a ∧ all_space b)
        pages text.
Proof.
  unfold paginated_plain_text_output. intros Htext.
  destruct (_get_pages _ _ _ _ _) as [tr [pages|e]]; simpl in Htext; [|done].
  rewrite app_nil_r in Htext. injection Htext as -> <-.
  exists pages. split; [done|].
  induction pages as [|page pages IH]; constructor; [|done].
  apply strip_ends.
Qed.

(** X7. What [plain_text_output] adds to the page strings is one newline
    between consecutive pages and nothing else: its result has the
    characters of the pages plus one per page but the first, that many
    more newlines than the pages hold, and is empty when there is no
    page. *)
Theorem plain_text_adds_separators_only σ pdf sort model hyphens page_range
    flatten_pdf workers t pdf_doc t' text :
  _process_pdf pdf flatten_pdf = (t, Ok pdf_doc) →
  paginated_plain_text_output σ pdf_doc sort model hyphens page_range
    flatten_pdf workers = (t', Ok text) →
  ∃ out,
    (plain_text_output σ pdf sort model hyphens page_range flatten_pdf
       workers).2 = Ok out
    ∧ length out = pred (length text) + list_sum (map length text)
    ∧ newlines out = pred (length text) + list_sum (map newlines text)
    ∧ (text = [] → out = [])
    ∧ (∀ s, text = [s] → out = s).
Proof.
  intros Hdoc Htext. exists (join [10%N] text). split.
  - unfold plain_text_output. rewrite Hdoc. simpl. by rewrite Htext.
  - split; [apply length_join|]. split; [apply newlines_join|].
    split; [by intros ->|by intros s ->].
Qed.

End TextExtras.

(** * Further properties of the assembler *)

(** ** What the loops may write *)

Section Writes.
Context {collaborators : Collaborators}.
Implicit Types (σ : heap) (o : value) (k : string).

Lemma bind_Ok {A B} (r : res A) (f : A → res B) (b : B) :
  r ≫= f = Ok b → ∃ a, r = Ok a ∧ f a = Ok b.
Proof. destruct r as [a|e]; [|done]. intros Hf. by exists a. Qed.

Lemma setitem_inv σ o k v σ' :
  setitem σ o k v = Ok σ' →
  ∃ l d, o = VRef l ∧ σ !! l = Some (ODict d)
         ∧ σ' = <[l := ODict (<[k := v]> d)]> σ.
Proof.
  unfold setitem. destruct (as_dict σ o) as [[l d]|] eqn:Hd; [|done].
  apply as_dict_inv in Hd as [-> Hl]. simpl. intros [= <-]. by exists l, d.
Qed.

Lemma dict_writes_refl alloc σ : dict_writes alloc σ σ.
Proof. intros l. by left. Qed.

Lemma dict_writes_trans alloc σ1 σ2 σ3 :
  dict_writes alloc σ1 σ2 → dict_writes alloc σ2 σ3 → dict_writes alloc σ1 σ3.
Proof.
  intros H12 H23 l.
  destruct (H12 l) as [E12|[(d & d' & Hd & Hd')|(Ha & Hn & items & Hi)]],
           (H23 l) as [E23|[(e & e' & He & He')|(Ha' & Hn' & items' & Hi')]].
  - left. congruence.
  - right. left. exists e, e'. split; congruence.
  - right. right. split; [done|]. split; [congruence|by exists items'].
  - right. left. exists d, d'. split; congruence.
  - right. left. exists d, e'. split; congruence.
  - congruence.
  - right. right. split; [done|]. split; [done|]. exists items. congruence.
  - congruence.
  - congruence.
Qed.

Lemma dict_writes_weaken alloc σ σ' :
  dict_writes false σ σ' → dict_writes alloc σ σ'.
Proof.
  intros Hw l. destruct (Hw l) as [?|[?|(? & _)]]; [by left|by right; left|done].
Qed.

Lemma dict_writes_insert alloc σ l d d' :
  σ !! l = Some (ODict d) → dict_writes alloc σ (<[l := ODict d']> σ).
Proof.
  intros Hl l'. destruct (decide (l' = l)) as [->|Hne].
  - right. left. exists d, d'. by rewrite lookup_insert_eq.
  - left. by rewrite lookup_insert_ne.
Qed.

Lemma setitem_writes alloc σ o k v σ' :
  setitem σ o k v = Ok σ' → dict_writes alloc σ σ'.
Proof.
  intros (l & d & -> & Hl & ->)%setitem_inv. by eapply dict_writes_insert.
Qed.

Lemma delitem_writes alloc σ o k σ' :
  delitem σ o k = Ok σ' → dict_writes alloc σ σ'.
Proof.
  intros (l & d & -> & Hl & ->)%delitem_inv. by eapply dict_writes_insert.
Qed.

Lemma for_each_writes {A} alloc (body : heap → A → res heap) items σ σ' :
  (∀ σ x σ', body σ x = Ok σ' → dict_writes alloc σ σ') →
  for_each items body σ = Ok σ' → dict_writes alloc σ σ'.
Proof.
  intros Hbody. revert σ. induction items as [|x items IH]; intros σ; simpl.
  - intros [= <-]. apply dict_writes_refl.
  - intros (σ1 & H1 & Hrest)%bind_Ok.
    apply (dict_writes_trans _ _ σ1); [by eapply Hbody|by apply IH].
Qed.

Lemma prune_writes alloc σ o keep σ' :
  prune σ o keep = Ok σ' → dict_writes alloc σ σ'.
Proof.
  unfold prune. intros (ks & _ & Hloop)%bind_Ok.
  apply (for_each_writes alloc _ _ _ _) in Hloop; [done|].
  intros σ0 k σ1. case_bool_decide.
  - intros [= <-]. apply dict_writes_refl.
  - apply delitem_writes.
Qed.

Lemma char_body_writes alloc W H σ char σ' :
  char_body W H σ char = Ok σ' → dict_writes alloc σ σ'.
Proof.
  unfold char_body. intros (bbox & _ & Hset)%bind_Ok.
  by eapply setitem_writes.
Qed.

Lemma _process_span_writes alloc W H keep σ span σ' :
  _process_span σ span W H keep = Ok σ' → dict_writes alloc σ σ'.
Proof.
  unfold _process_span.
  intros (bbox & _ & (σ1 & H1 & (text & _ & (σ2 & H2 & Hrest)%bind_Ok)
            %bind_Ok)%bind_Ok)%bind_Ok.
  apply (dict_writes_trans _ _ σ1); [by eapply setitem_writes|].
  apply (dict_writes_trans _ _ σ2); [by eapply setitem_writes|].
  destruct keep; simpl in Hrest.
  - apply bind_Ok in Hrest as (chars & _ & (items & _ & Hloop)%bind_Ok).
    apply (for_each_writes alloc _ _ _ _) in Hloop; [done|].
    intros σ0 c σ3. apply char_body_writes.
  - by eapply delitem_writes.
Qed.

Lemma line_body_writes alloc W H keep σ line σ' :
  line_body W H keep σ line = Ok σ' → dict_writes alloc σ σ'.
Proof.
  unfold line_body.
  intros (σ1 & H1 & (bbox & _ & (σ2 & H2 & (spans & _ & (items & _ & Hloop)
            %bind_Ok)%bind_Ok)%bind_Ok)%bind_Ok)%bind_Ok.
  apply (dict_writes_trans _ _ σ1); [by eapply prune_writes|].
  apply (dict_writes_trans _ _ σ2); [by eapply setitem_writes|].
  apply (for_each_writes alloc _ _ _ _) in Hloop; [done|].
  intros σ0 s σ3. apply _process_span_writes.
Qed.

Lemma block_body_writes alloc W H keep σ block σ' :
  block_body W H keep σ block = Ok σ' → dict_writes alloc σ σ'.
Proof.
  unfold block_body.
  intros (σ1 & H1 & (bbox & _ & (σ2 & H2 & (lines & _ & (items & _ & Hloop)
            %bind_Ok)%bind_Ok)%bind_Ok)%bind_Ok)%bind_Ok.
  apply (dict_writes_trans _ _ σ1); [by eapply prune_writes|].
  apply (dict_writes_trans _ _ σ2); [by eapply setitem_writes|].
  apply (for_each_writes alloc _ _ _ _) in Hloop; [done|].
  intros σ0 s σ3. apply line_body_writes.
Qed.

Lemma sort_page_writes σ page σ' :
  sort_page σ page = Ok σ' → dict_writes true σ σ'.
Proof.
  unfold sort_page.
  intros (blocks & _ & (items & _ & Hset)%bind_Ok)%bind_Ok.
  set (sorted := fresh (dom σ)) in *.
  assert (σ !! sorted = None) as Hfresh by apply not_elem_of_dom, is_fresh.
  apply (dict_writes_trans _ _ (<[sorted := OList (sort_blocks σ items)]> σ));
    [|by eapply setitem_writes].
  intros l. destruct (decide (l = sorted)) as [->|Hne].
  - right. right. split; [done|]. split; [done|].
    eexists. by rewrite lookup_insert_eq.
  - left. by rewrite lookup_insert_ne.
Qed.

Lemma page_body_writes sort keep σ page σ' :
  page_body sort keep σ page = Ok σ' → dict_writes sort σ σ'.
Proof.
  unfold page_body.
  intros (W & _ & (H & _ & (blocks & _ & (items & _ & (σ1 & Hloop & Hsort)
            %bind_Ok)%bind_Ok)%bind_Ok)%bind_Ok)%bind_Ok.
  apply (for_each_writes sort _ _ _ _) in Hloop;
    [|intros σ0 b σ2; apply block_body_writes].
  apply (dict_writes_trans _ _ σ1); [done|].
  destruct sort.
  - by eapply sort_page_writes.
  - injection Hsort as <-. apply dict_writes_refl.
Qed.

Lemma assemble_writes sort keep σ pages σ' :
  assemble σ pages sort keep = Ok σ' → dict_writes sort σ σ'.
Proof.
  unfold assemble. intros Hloop.
  apply (for_each_writes sort _ _ _ _) in Hloop; [done|].
  intros σ0 p σ1. apply page_body_writes.
Qed.

End Writes.

(** ** Keys: pruning, missing keys, dropped chars *)

Section Keys.
Context {collaborators : Collaborators}.
Implicit Types (σ : heap) (o : value) (k : string) (d : dict) (W H : value).

Lemma pruned_idempotent keep d : pruned keep (pruned keep d) = pruned keep d.
Proof.
  apply map_eq. intros k. rewrite !pruned_lookup.
  by destruct (bool_decide (k ∈ keep)).
Qed.

Lemma prune_inv σ o keep σ' :
  prune σ o keep = Ok σ' →
  ∃ l d, o = VRef l ∧ σ !! l = Some (ODict d)
         ∧ σ' = <[l := ODict (pruned keep d)]> σ.
Proof.
  intros Hrun. assert (∃ l d, o = VRef l ∧ σ !! l = Some (ODict d))
    as (l & d & -> & Hl).
  { unfold prune, keys in Hrun. destruct o as [| | | | | |l]; try done.
    destruct (σ !! l) as [[d|]|] eqn:Hl; try done. by exists l, d. }
  rewrite (prune_dict _ _ _ _ Hl) in Hrun. injection Hrun as <-.
  by exists l, d.
Qed.

(** X8. The deletion loop over the keys of a dictionary leaves exactly
    the keys of [keep] that the dictionary had, with their values, and
    touches no other object; on a list it raises [AttributeError]. *)
Theorem prune_keeps_listed_keys σ l keep :
  (∀ d, σ !! l = Some (ODict d) →
     ∃ d', prune σ (VRef l) keep = Ok (<[l := ODict d']> σ)
           ∧ ∀ k, d' !! k = if bool_decide (k ∈ keep) then d !! k else None)
  ∧ (∀ items, σ !! l = Some (OList items) →
       prune σ (VRef l) keep = Err (AttributeError "keys")).
Proof.
  split.
  - intros d Hl. exists (pruned keep d).
    split; [by apply prune_dict|]. intros k. apply pruned_lookup.
  - intros items Hl. unfold prune, keys. by rewrite Hl.
Qed.

(** X9. Pruning twice is pruning once: when the deletion loop has
    returned, running it again with the same keys returns the same
    store. *)
Theorem prune_twice σ o keep σ' :
  prune σ o keep = Ok σ' → prune σ' o keep = Ok σ'.
Proof.
  intros (l & d & -> & Hl & ->)%prune_inv.
  rewrite (prune_dict _ l (pruned keep d)) by apply lookup_insert_eq.
  by rewrite insert_insert_eq, pruned_idempotent.
Qed.

Lemma _process_span_no_chars σ l d W H keep :
  σ !! l = Some (ODict d) →
  is_Some (d !! "bbox") → is_Some (d !! "text") → d !! "chars" = None →
  _process_span σ (VRef l) W H keep = Err (KeyError "chars").
Proof.
  intros Hl [bbox Hb] [text Ht] Hc. unfold _process_span.
  assert (∀ d0 σ0, <[l := ODict d0]> σ0 !! l = Some (ODict d0)) as Hl0
    by (intros; apply lookup_insert_eq).
  rewrite (getitem_Some _ _ _ _ _ Hl Hb). cbn [mbind res_bind].
  rewrite (setitem_dict _ _ _ _ _ Hl). cbn [mbind res_bind].
  rewrite (getitem_Some _ _ _ _ text (Hl0 _ _))
    by (by rewrite lookup_insert_ne).
  cbn [mbind res_bind].
  rewrite (setitem_dict _ _ _ _ _ (Hl0 _ _)). cbn [mbind res_bind].
  rewrite insert_insert_eq.
  set (d2 := <["text" := _]> (<["bbox" := _]> d)).
  assert (d2 !! "chars" = None) as Hc2
    by (unfold d2; by rewrite !lookup_insert_ne).
  destruct keep; cbn [negb].
  - rewrite (getitem_dict _ l d2) by apply lookup_insert_eq.
    by rewrite Hc2.
  - unfold delitem, as_dict. rewrite lookup_insert_eq. simpl.
    by rewrite Hc2.
Qed.

(** X10. [_process_span] on a dictionary raises [KeyError] for the first
    key it misses, in the order bbox, text, chars, whatever [keep_chars]
    is. *)
Theorem _process_span_missing_key σ l d W H keep :
  σ !! l = Some (ODict d) →
  (d !! "bbox" = None →
   _process_span σ (VRef l) W H keep = Err (KeyError "bbox"))
  ∧ (is_Some (d !! "bbox") → d !! "text" = None →
     _process_span σ (VRef l) W H keep = Err (KeyError "text"))
  ∧ (is_Some (d !! "bbox") → is_Some (d !! "text") → d !! "chars" = None →
     _process_span σ (VRef l) W H keep = Err (KeyError "chars")).
Proof.
  intros Hl. split; [|split; [|by apply _process_span_no_chars]].
  - intros Hb. unfold _process_span.
    by rewrite (getitem_dict _ _ _ _ Hl), Hb.
  - intros [bbox Hb] Ht. unfold _process_span.
    rewrite (getitem_Some _ _ _ _ _ Hl Hb). cbn [mbind res_bind].
    rewrite (setitem_dict _ _ _ _ _ Hl). cbn [mbind res_bind].
    rewrite (getitem_dict _ l (<["bbox" := unnormalize_bbox bbox W H]> d))
      by apply lookup_insert_eq.
    by rewrite lookup_insert_ne, Ht.
Qed.

(** X11. The bodies of the page, block and line loops raise [KeyError]
    for the first key they miss: width, height, blocks for a page; bbox,
    then lines, for a block; bbox, then spans, for a line. *)
Theorem loop_bodies_missing_key σ l d W H sort keep :
  σ !! l = Some (ODict d) →
  (d !! "width" = None →
   page_body sort keep σ (VRef l) = Err (KeyError "width"))
  ∧ (is_Some (d !! "width") → d !! "height" = None →
     page_body sort keep σ (VRef l) = Err (KeyError "height"))
  ∧ (is_Some (d !! "width") → is_Some (d !! "height") →
     d !! "blocks" = None →
     page_body sort keep σ (VRef l) = Err (KeyError "blocks"))
  ∧ (d !! "bbox" = None →
     block_body W H keep σ (VRef l) = Err (KeyError "bbox")
     ∧ line_body W H keep σ (VRef l) = Err (KeyError "bbox"))
  ∧ (is_Some (d !! "bbox") → d !! "lines" = None →
     block_body W H keep σ (VRef l) = Err (KeyError "lines"))
  ∧ (is_Some (d !! "bbox") → d !! "spans" = None →
     line_body W H keep σ (VRef l) = Err (KeyError "spans")).
Proof.
  intros Hl.
  assert (∀ keep0 ck, "bbox" ∈ keep0 → ck ∈ keep0 → ck ≠ "bbox" →
            ∀ body,
              (d !! "bbox" = None →
               node_body keep0 ck body W H σ (VRef l) = Err (KeyError "bbox"))
              ∧ (is_Some (d !! "bbox") → d !! ck = None →
                 node_body keep0 ck body W H σ (VRef l) = Err (KeyError ck)))
    as Hnode.
  { intros keep0 ck Hb Hck Hne body. unfold node_body.
    rewrite (prune_dict _ _ _ _ Hl). cbn [mbind res_bind].
    assert (∀ d0, <[l := ODict d0]> σ !! l = Some (ODict d0)) as Hl0
      by (intros; apply lookup_insert_eq).
    rewrite (getitem_dict _ _ _ "bbox" (Hl0 (pruned keep0 d))).
    rewrite (pruned_lookup_keep _ _ _ Hb).
    split; [by intros ->|]. intros [bbox ->] Hk. cbn [mbind res_bind].
    rewrite (setitem_dict _ _ _ _ _ (Hl0 (pruned keep0 d))).
    cbn [mbind res_bind]. rewrite insert_insert_eq.
    rewrite (getitem_dict _ _ _ ck (Hl0 (<["bbox" := _]> (pruned keep0 d)))).
    rewrite lookup_insert_ne by done.
    by rewrite (pruned_lookup_keep _ _ _ Hck), Hk. }
  destruct (Hnode ["lines"; "bbox"] "lines" ltac:(by right; left)
              ltac:(by left) ltac:(done) (line_body W H keep))
    as [Hb1 Hb2].
  destruct (Hnode ["spans"; "bbox"] "spans" ltac:(by right; left)
              ltac:(by left) ltac:(done)
              (λ σ span, _process_span σ span W H keep))
    as [Hl1 Hl2].
  unfold page_body. rewrite !(getitem_dict _ _ _ _ Hl).
  split; [by intros ->|]. split; [by intros [w ->] ->|].
  split; [by intros [w ->] [h ->] ->|].
  split; [intros Hb; split; [by apply Hb1|by apply Hl1]|].
  split; [exact Hb2|exact Hl2].
Qed.

(** What a call with [keep_chars] false that returns has done. *)
Lemma _process_span_drop_inv σ span W H σ' :
  _process_span σ span W H false = Ok σ' →
  ∃ l d bbox text chars,
    span = VRef l ∧ σ !! l = Some (ODict d)
    ∧ d !! "bbox" = Some bbox ∧ d !! "text" = Some text
    ∧ d !! "chars" = Some chars
    ∧ σ' = <[l := ODict (delete "chars"
                           (<["text" := handle_hyphens (postprocess_text text)
                                          true]>
                              (<["bbox" := unnormalize_bbox bbox W H]> d)))]>
             σ.
Proof.
  unfold _process_span. intros Hrun.
  apply bind_Ok in Hrun as (bbox & Hb & Hrun).
  apply getitem_inv in Hb as (l & d & -> & Hl & Hb).
  rewrite (setitem_dict _ _ _ _ _ Hl) in Hrun. cbn [mbind res_bind] in Hrun.
  assert (∀ d0 σ0, <[l := ODict d0]> σ0 !! l = Some (ODict d0)) as Hl0
    by (intros; apply lookup_insert_eq).
  apply bind_Ok in Hrun as (text & Ht & Hrun).
  rewrite (getitem_dict _ _ _ _ (Hl0 _ _)) in Ht.
  rewrite lookup_insert_ne in Ht by done.
  destruct (d !! "text") as [text'|] eqn:Ht'; [|done]. injection Ht as ->.
  rewrite (setitem_dict _ _ _ _ _ (Hl0 _ _)) in Hrun.
  cbn [mbind res_bind negb] in Hrun. rewrite insert_insert_eq in Hrun.
  unfold delitem, as_dict in Hrun. rewrite lookup_insert_eq in Hrun.
  simpl in Hrun. rewrite !lookup_insert_ne in Hrun by done.
  destruct (d !! "chars") as [chars|] eqn:Hc; [|done].
  injection Hrun as <-. rewrite insert_insert_eq.
  by exists l, d, bbox, text, chars.
Qed.

(** X12. Once [_process_span] has returned with [keep_chars] false, a
    second call on the same span raises [KeyError] on "chars", whatever
    [keep_chars] is then. *)
Theorem _process_span_again_after_drop σ span W H σ' keep :
  _process_span σ span W H false = Ok σ' →
  _process_span σ' span W H keep = Err (KeyError "chars").
Proof.
  intros Hrun. apply _process_span_drop_inv in Hrun
    as (l & d & bbox & text & chars & -> & Hl & Hb & Ht & Hc & ->).
  set (d' := delete "chars" _).
  apply (_process_span_no_chars _ l d'); [apply lookup_insert_eq| | |].
  - unfold d'. rewrite lookup_delete_ne, lookup_insert_ne, lookup_insert_eq
      by done. by eexists.
  - unfold d'. rewrite lookup_delete_ne, lookup_insert_eq by done. by eexists.
  - unfold d'. by rewrite lookup_delete_eq.
Qed.

(** X13. With [keep_chars] false, [_process_span] returns exactly on the
    dictionaries that have "bbox", "text" and "chars"; it then rewrites
    "bbox" and "text", deletes "chars" without reading it (it need not be
    a list), and writes no other object: the chars are left as they
    were. *)
Theorem _process_span_drop_exactly σ span W H σ' :
  _process_span σ span W H false = Ok σ'
  ↔ ∃ l d bbox text chars,
      span = VRef l ∧ σ !! l = Some (ODict d)
      ∧ d !! "bbox" = Some bbox ∧ d !! "text" = Some text
      ∧ d !! "chars" = Some chars
      ∧ σ' = <[l := ODict (delete "chars"
                             (<["text" := handle_hyphens
                                            (postprocess_text text) true]>
                                (<["bbox" := unnormalize_bbox bbox W H]> d)))]>
               σ.
Proof.
  split; [apply _process_span_drop_inv|].
  intros (l & d & bbox & text & chars & -> & Hl & Hb & Ht & Hc & ->).
  unfold _process_span.
  assert (∀ d0 σ0, <[l := ODict d0]> σ0 !! l = Some (ODict d0)) as Hl0
    by (intros; apply lookup_insert_eq).
  rewrite (getitem_Some _ _ _ _ _ Hl Hb). cbn [mbind res_bind].
  rewrite (setitem_dict _ _ _ _ _ Hl). cbn [mbind res_bind].
  rewrite (getitem_Some _ _ _ _ text (Hl0 _ _))
    by (by rewrite lookup_insert_ne).
  cbn [mbind res_bind].
  rewrite (setitem_dict _ _ _ _ _ (Hl0 _ _)). cbn [mbind res_bind negb].
  rewrite insert_insert_eq.
  rewrite (delitem_Some _ _ _ _ chars (Hl0 _ _))
    by (by rewrite !lookup_insert_ne).
  by rewrite insert_insert_eq.
Qed.

(** X14. Whatever the pages, when [dictionary_output] returns it has
    written into dictionaries only: every list of the store is as it was,
    every dictionary is still a dictionary, no object has gone and no
    dictionary has been created.  Without [sort] the store holds the same
    objects as before; with [sort] the only new objects are lists. *)
Theorem dictionary_output_writes_dictionaries_only σ pdf sort model page_range
    flatten_pdf keep_chars workers t pages σ' :
  dictionary_output σ pdf sort model page_range flatten_pdf keep_chars workers
  = (t, Ok (pages, σ')) →
  assemble σ pages sort keep_chars = Ok σ'
  ∧ (∀ l items, σ !! l = Some (OList items) → σ' !! l = Some (OList items))
  ∧ (∀ l d, σ !! l = Some (ODict d) → ∃ d', σ' !! l = Some (ODict d'))
  ∧ (∀ l d', σ' !! l = Some (ODict d') → ∃ d, σ !! l = Some (ODict d))
  ∧ dom σ ⊆ dom σ'
  ∧ (sort = false → dom σ' = dom σ).
Proof.
  intros Hrun.
  assert (assemble σ pages sort keep_chars = Ok σ') as Hloop.
  { unfold dictionary_output in Hrun.
    destruct (_process_pdf pdf flatten_pdf) as [t1 [pdf_doc|e]]; [|done].
    simpl in Hrun.
    destruct (_get_pages _ _ _ _ _) as [t2 [pages'|e]]; [|done].
    simpl in Hrun.
    destruct (assemble σ pages' sort keep_chars) as [σ1|e] eqn:Hloop;
      simpl in Hrun; [|done].
    by injection Hrun as _ <- <-. }
  split; [done|]. apply assemble_writes in Hloop as Hw.
  assert (∀ l, is_Some (σ !! l) → is_Some (σ' !! l)) as Hsub.
  { intros l [x Hx].
    destruct (Hw l) as [E|[(d & d' & _ & Hd')|(_ & Hn & _)]];
      [rewrite E; by eexists|by eexists|congruence]. }
  split; [|split; [|split; [|split]]].
  - intros l items Hl.
    destruct (Hw l) as [E|[(d & d' & Hd & _)|(_ & Hn & _)]]; congruence.
  - intros l d Hl.
    destruct (Hw l) as [E|[(d0 & d' & _ & Hd')|(_ & Hn & _)]];
      [exists d; congruence|by exists d'|congruence].
  - intros l d' Hl.
    destruct (Hw l) as [E|[(d & d0 & Hd & _)|(_ & _ & items & Hi)]];
      [exists d'; congruence|by exists d|congruence].
  - intros l. rewrite !elem_of_dom. apply Hsub.
  - intros ->. apply set_eq. intros l. rewrite !elem_of_dom. split; [|apply Hsub].
    intros [x Hx].
    destruct (Hw l) as [E|[(d & d' & Hd & _)|(? & _)]];
      [rewrite <- E; by eexists|by eexists|done].
Qed.

End Keys.

(** ** The further properties on the samples *)


Lemma zero_threshold_raises_witness :
  let pdf := @SValue sample_zero (VStr [97%N]) in
  (@WORKER_PAGE_THRESHOLD sample_zero = 0%Z
   ∧ @_process_pdf sample_zero pdf false = ([EOpen [97%N]], Ok 0))
  ∧ @_get_pages sample_zero 0 None None false (Some 4%Z)
    = (@prelude sample_zero None None, Err ZeroDivisionError)
  ∧ @plain_text_output sample_zero ∅ pdf false None false None false
      (Some 4%Z)
    = ([EOpen [97%N]] ++ @prelude sample_zero None None,
       Err ZeroDivisionError)
  ∧ @dictionary_output sample_zero ∅ pdf false None None false false
      (Some 4%Z)
    = ([EOpen [97%N]] ++ @prelude sample_zero None None,
       Err ZeroDivisionError).
Proof.
  intros pdf. split; [by vm_compute|].
  destruct (@zero_threshold_raises sample_zero ∅ pdf [EOpen [97%N]] 0 false
              None false None false false 4%Z eq_refl eq_refl)
    as (Hpages & Htext & Hdict & _).
  exact (conj Hpages (conj Htext Hdict)).
Defined.

Lemma chunk_sizes_witness :
  let r := range 25 in
  let chunks := page_range_chunks r 2 in
  let ppw := pages_per_worker r 2 in
  (@cap_workers sample r (Some 2%Z) = Ok (Some 2%Z)
   ∧ sequential (Some 2%Z) = false)
  ∧ (length chunks = Z.to_nat 2
     ∧ (@WORKER_PAGE_THRESHOLD sample ≤ ppw ≤ len r)%Z
     ∧ (∀ (i : nat) chunk, chunks !! i = Some chunk →
          len chunk = Z.min ppw (Z.max 0 (len r - Z.of_nat i * ppw)))
     ∧ ∃ first, chunks !! 0 = Some first ∧ len first = ppw).
Proof.
  split; [by vm_compute|].
  apply (@chunk_sizes sample (range 25) (Some 2%Z) 2%Z); by vm_compute.
Defined.

Lemma parallel_path_ignores_flatten_pdf_witness :
  let r := range 25 in
  (@cap_workers sample r (Some 2%Z) = Ok (Some 2%Z)
   ∧ sequential (Some 2%Z) = false)
  ∧ @_get_pages sample 0 None None true (Some 2%Z)
    = @_get_pages sample 0 None None false (Some 2%Z)
  ∧ (@_get_pages sample 0 None None true (Some 2%Z)).1
    = [EGetModel; EPageCount;
       EWorker 0 (range 13) [EGetChars (range 13) None; EInference 13];
       EWorker 1 (slice r 13 26)
         [EGetChars (slice r 13 26) None; EInference 12]].
Proof.
  intros r. split; [by vm_compute|].
  destruct (@parallel_path_ignores_flatten_pdf sample 0 None None (Some 2%Z)
              2%Z true false eq_refl eq_refl) as (Hsame & Htrace & _).
  split; [exact Hsame|exact Htrace].
Defined.

Lemma paginated_text_trims_ends_only_witness :
  let t := [EGetModel; EGetChars [0; 1]%Z (Some false); EInference 2] in
  let text := [[72; 105]; [72; 105]]%N in
  @paginated_plain_text_output sample ∅ 0 false None false (Some [0; 1]%Z)
    false None = (t, Ok text)
  ∧ ∃ pages,
      @_get_pages sample 0 None (Some [0; 1]%Z) false None = (t, Ok pages)
      ∧ Forall2 (λ page s,
                   ∃ a b, @merge_text sample ∅ page false false = a ++ s ++ b
                          ∧ all_space a ∧ all_space b)
          pages text.
Proof.
  intros t text. split; [by vm_compute|].
  apply (@paginated_text_trims_ends_only sample ∅ 0 false None false
           (Some [0; 1]%Z) false None t text).
  by vm_compute.
Defined.

Lemma plain_text_adds_separators_only_witness :
  let pdf := @SValue sample (VStr [97%N]) in
  let t' := [EGetModel; EGetChars [0; 1]%Z (Some false); EInference 2] in
  let text := [[72; 105]; [72; 105]]%N in
  (@_process_pdf sample pdf false = ([EOpen [97%N]], Ok 0)
   ∧ @paginated_plain_text_output sample ∅ 0 false None false
       (Some [0; 1]%Z) false None = (t', Ok text))
  ∧ ∃ out,
      (@plain_text_output sample ∅ pdf false None false (Some [0; 1]%Z) false
         None).2 = Ok out
      ∧ length out = 5 ∧ newlines out = 1.
Proof.
  intros pdf t' text. split; [by vm_compute|].
  destruct (@plain_text_adds_separators_only sample ∅ pdf false None false
              (Some [0; 1]%Z) false None [EOpen [97%N]] 0 t' text
              eq_refl eq_refl) as (out & Hout & Hlen & Hnl & _).
  exists out. split; [exact Hout|]. split; [exact Hlen|exact Hnl].
Defined.

Lemma prune_keeps_listed_keys_witness :
  (sample_store !! 11%positive = Some (ODict (b_dict sample_block))
   ∧ sample_store !! 12%positive = Some (OList [VRef 13%positive]))
  ∧ (∃ d',
       prune sample_store (VRef 11%positive) ["lines"; "bbox"]
       = Ok (<[11%positive := ODict d']> sample_store)
       ∧ d' !! "label" = None
       ∧ d' !! "lines" = Some (VRef 12%positive)
       ∧ d' !! "bbox" = Some sample_bbox)
  ∧ prune sample_store (VRef 12%positive) ["lines"; "bbox"]
    = Err (AttributeError "keys").
Proof.
  split; [by vm_compute|].
  destruct (prune_keeps_listed_keys sample_store 11%positive
              ["lines"; "bbox"]) as [Hdict _].
  destruct (prune_keeps_listed_keys sample_store 12%positive
              ["lines"; "bbox"]) as [_ Hlist].
  destruct (Hdict (b_dict sample_block) eq_refl) as (d' & Hrun & Hd').
  split; [|exact (Hlist [VRef 13%positive] eq_refl)].
  exists d'. split; [exact Hrun|].
  split; [exact (Hd' "label")|]. split; [exact (Hd' "lines")|].
  exact (Hd' "bbox").
Defined.

Lemma prune_twice_witness :
  let σ' :=
    <[11%positive :=
        ODict (<["bbox" := sample_bbox]> (<["lines" := VRef 12%positive]> ∅))]>
      sample_store in
  prune sample_store (VRef 11%positive) ["lines"; "bbox"] = Ok σ'
  ∧ prune σ' (VRef 11%positive) ["lines"; "bbox"] = Ok σ'.
Proof.
  intros σ'.
  assert (prune sample_store (VRef 11%positive) ["lines"; "bbox"] = Ok σ')
    as Hrun by (by vm_compute).
  split; [exact Hrun|].
  exact (prune_twice sample_store (VRef 11%positive) ["lines"; "bbox"] σ' Hrun).
Defined.

Lemma _process_span_missing_key_witness :
  let W := VFloat 640 in
  let H := VFloat 480 in
  let d := <["bbox" := sample_bbox_px]> (<["text" := VStr [72%N]]> ∅) in
  sample_store_dropped !! 15%positive = Some (ODict d)
  ∧ @_process_span sample sample_store_dropped (VRef 15%positive) W H true
    = Err (KeyError "chars")
  ∧ @_process_span sample sample_store_dropped (VRef 15%positive) W H false
    = Err (KeyError "chars").
Proof.
  intros W H d. split; [by vm_compute|].
  destruct (@_process_span_missing_key sample sample_store_dropped 15%positive
              d W H true eq_refl) as (_ & _ & Hkeep).
  destruct (@_process_span_missing_key sample sample_store_dropped 15%positive
              d W H false eq_refl) as (_ & _ & Hdrop).
  split; [apply Hkeep|apply Hdrop]; first [by eexists|by vm_compute].
Defined.

Lemma loop_bodies_missing_key_witness :
  let W := VFloat 640 in
  let H := VFloat 480 in
  sample_store !! 15%positive = Some (ODict (s_dict sample_span))
  ∧ @page_body sample false false sample_store (VRef 15%positive)
    = Err (KeyError "width")
  ∧ @block_body sample W H false sample_store (VRef 15%positive)
    = Err (KeyError "lines")
  ∧ @line_body sample W H false sample_store (VRef 15%positive)
    = Err (KeyError "spans").
Proof.
  intros W H. split; [by vm_compute|].
  destruct (@loop_bodies_missing_key sample sample_store 15%positive
              (s_dict sample_span) W H false false eq_refl)
    as (Hwidth & _ & _ & _ & Hlines & Hspans).
  split; [by apply Hwidth|].
  split; [apply Hlines|apply Hspans]; first [by eexists|by vm_compute].
Defined.

Lemma _process_span_again_after_drop_witness :
  let W := VFloat 640 in
  let H := VFloat 480 in
  let σ' :=
    <[15%positive :=
        ODict (<["bbox" := sample_bbox_px]> (<["text" := VStr [72%N]]> ∅))]>
      sample_store in
  @_process_span sample sample_store (VRef 15%positive) W H false = Ok σ'
  ∧ @_process_span sample σ' (VRef 15%positive) W H false
    = Err (KeyError "chars")
  ∧ @_process_span sample σ' (VRef 15%positive) W H true
    = Err (KeyError "chars").
Proof.
  intros W H σ'.
  assert (@_process_span sample sample_store (VRef 15%positive) W H false
          = Ok σ') as Hrun by (by vm_compute).
  split; [exact Hrun|].
  split;
    exact (@_process_span_again_after_drop sample sample_store
             (VRef 15%positive) W H σ' _ Hrun).
Defined.

(** A span whose "chars" is [None]: with [keep_chars] false the call
    returns all the same. *)
Lemma _process_span_drop_exactly_witness :
  let W := VFloat 640 in
  let H := VFloat 480 in
  let d :=
    <["bbox" := sample_bbox]>
      (<["text" := VStr [72%N]]> (<["chars" := VNone]> ∅)) in
  let σ : heap := <[1%positive := ODict d]> ∅ in
  @_process_span sample σ (VRef 1%positive) W H false
  = Ok (<[1%positive :=
            ODict (delete "chars"
                     (<["text" := VStr [72%N]]>
                        (<["bbox" := scale_bbox sample_bbox W H]> d)))]> σ)
  ∧ @_process_span sample σ (VRef 1%positive) W H true
    = Err (TypeError "not a list").
Proof.
  intros W H d σ. split; [|by vm_compute].
  apply (@_process_span_drop_exactly sample σ (VRef 1%positive) W H).
  exists 1%positive, d, sample_bbox, (VStr [72%N]), VNone.
  split; [reflexivity|]. split; [by vm_compute|].
  split; [by vm_compute|]. split; [by vm_compute|].
  split; [by vm_compute|reflexivity].
Defined.

Lemma dictionary_output_writes_dictionaries_only_witness :
  let pdf := @SValue sample (VStr [97%N]) in
  let t := [EOpen [97%N]; EGetModel; EGetChars [0%Z] (Some false);
            EInference 1] in
  let σ := sample_store in
  let σ' := sample_store_dropped in
  @dictionary_output sample σ pdf false None (Some [0%Z]) false false None
  = (t, Ok ([VRef 1%positive], σ'))
  ∧ (@assemble sample σ [VRef 1%positive] false false = Ok σ'
     ∧ (∀ l items, σ !! l = Some (OList items) → σ' !! l = Some (OList items))
     ∧ (∀ l d, σ !! l = Some (ODict d) → ∃ d', σ' !! l = Some (ODict d'))
     ∧ (∀ l d', σ' !! l = Some (ODict d') → ∃ d, σ !! l = Some (ODict d))
     ∧ dom σ ⊆ dom σ'
     ∧ (false = false → dom σ' = dom σ)).
Proof.
  intros pdf t σ σ'. split; [by vm_compute|].
  apply (@dictionary_output_writes_dictionaries_only sample σ pdf false None
           (Some [0%Z]) false false None t [VRef 1%positive] σ').
  by vm_compute.
Defined.
